(** * Traceability matrix of ProjectIQ: the graph builder and its coverage figures

    Shallow embedding of [components/brd/TraceabilityMatrix.tsx]: the body of
    [fetchTraceability] after the two database reads (source registry,
    objective and requirement views, link construction) and the two coverage
    figures rendered under "Coverage Analysis".

    JavaScript values are modelled as follows.
    - A JSON field that may be missing, [null] or [undefined] is an [option];
      [""] is a present but falsy string ([truthy] below).
    - Array indices and lengths are [nat]; [`${idx + 1}`] is decimal printing
      ([pretty] on [nat]).
    - [Array.prototype.map] is [fmap] ([<$>]), with [imap] where the
      callback takes the index; [filter] and [find] are those of lists.
    - [Array.prototype.forEach] over a loop body that pushes onto the shared
      [links] array is a left fold threading the array, [push] appending at
      the end.
    - The quotient of two array lengths is an exact rational ([Q]); the ratio
      is the number the code multiplies by 100 for the bar width.
    - Every entry of [raw_sources] is a string or an object, and identifiers
      of objectives, requirements and tasks are strings, as the application
      stores them. *)

From Stdlib Require Import QArith.
From stdpp Require Import base strings list gmap pretty.

Open Scope string_scope.
Open Scope list_scope.

(** ** JavaScript helpers *)

(** Truthiness of a possibly missing string: only a non-empty string is
    truthy. *)
Definition truthy (o : option string) : bool :=
  match o with
  | Some s => negb (String.eqb s "")
  | None => false
  end.

(** [a || d] where [d] is a string: the left operand when truthy. *)
Definition or_else (o : option string) (d : string) : string :=
  match o with
  | Some s => if String.eqb s "" then d else s
  | None => d
  end.

(** [a || b] where both may be missing. *)
Definition or_opt (o1 o2 : option string) : option string :=
  if truthy o1 then o1 else o2.

(** [Array.isArray(x) ? x : []] for a JSON column that may hold anything. *)
Definition arrayOrEmpty {A} (x : option (list A)) : list A :=
  match x with
  | Some l => l
  | None => []
  end.

(** [x === y] for a string [x] and a possibly missing string [y]. *)
Definition strictEq (x : string) (y : option string) : bool :=
  match y with
  | Some s => String.eqb x s
  | None => false
  end.

(** ** Input records *)

(** One entry of [brd.raw_sources]: a bare string or an object. *)
Inductive RawSource :=
| RawString (s : string)
| RawObject (type name content : option string)
            (metadata : option (list (string * string))).

Definition raw_type (s : RawSource) : option string :=
  match s with RawString _ => None | RawObject t _ _ _ => t end.
Definition raw_name (s : RawSource) : option string :=
  match s with RawString _ => None | RawObject _ n _ _ => n end.
Definition raw_metadata (s : RawSource) : option (list (string * string)) :=
  match s with RawString _ => None | RawObject _ _ _ m => m end.

Record RawObjective := {
  bo_id : string;
  bo_description : option string;
  bo_source_doc : option string;
}.

Record RawRequirement := {
  rr_id : string;
  rr_title : option string;
  rr_description : option string;
  rr_source_doc : option string;
  rr_source_quote : option string;
  rr_citation_verified : option bool;
}.

Record Brd := {
  raw_sources : option (list RawSource);
  business_objectives : option (list RawObjective);
  functional_requirements : option (list RawRequirement);
  non_functional_requirements : option (list RawRequirement);
}.

Record Task := {
  task_id : string;
  task_title : string;
  requirement_id : option string;
  task_status : string;
}.

(** ** Derived views *)

Record Source := {
  src_id : string;
  srcKey : string;
  src_name : string;
  src_type : string;
  src_content : option string;
  src_metadata : list (string * string);
}.

Record Objective := {
  obj_id : string;
  obj_name : string;
  obj_source : option string;
}.

Inductive ReqType := functional | non_functional.

Record Requirement := {
  req_id : string;
  req_name : string;
  req_source : option string;
  sourceQuote : option string;
  citationVerified : option bool;
  req_type : ReqType;
}.

(** The four node kinds, keys of [NODE_CONFIG]. *)
Inductive NodeKind := N_source | N_objective | N_requirement | N_task.

Global Instance NodeKind_eq_dec : EqDecision NodeKind.
Proof. solve_decision. Defined.

Record LinkSource := {
  ls_id : string;
  ls_type : NodeKind;
  ls_name : string;
  excerpt : option string;
}.

Record LinkTarget := {
  lt_id : string;
  lt_type : NodeKind;
  lt_name : string;
}.

Record TraceabilityLink := {
  link_source : LinkSource;
  link_target : LinkTarget;
}.

(** ** Source registry *)

(** Keys of [SOURCE_TYPE_CONFIG], the recognised source types.
    [getSourceTypeConfig] looks a source's lower-cased [type] up among them to
    pick the icon, colours and label of its legend entry, and takes the
    ["document"] entry otherwise; it never rewrites the [type] stored in the
    registry. *)
Definition SOURCE_TYPE_KEYS : list string :=
  ["gmail"; "email"; "slack"; "fireflies"; "transcript"; "document"; "text"].

Definition buildSourceId (idx : nat) : string :=
  "SRC-" +:+ pretty (idx + 1).

(** The callback of [rawSources.map((s, idx) => ...)]. *)
Definition mkSource (idx : nat) (s : RawSource) : Source :=
  {| src_id := buildSourceId idx;
     srcKey := "source-" +:+ pretty idx;
     src_name := or_else (or_opt (raw_name s) (raw_type s))
                         ("Source " +:+ pretty (idx + 1));
     src_type := or_else (raw_type s) "document";
     src_content := match s with
                    | RawString str => Some str
                    | RawObject _ _ c _ => c
                    end;
     src_metadata := match raw_metadata s with
                     | Some m => m
                     | None => []
                     end |}.

Definition buildSources (rawSources : list RawSource) : list Source :=
  imap mkSource rawSources.

(** ** Objective and requirement views *)

(** [o.description?.substring(0, n)]: the first [n] characters, missing when
    the description is.  Characters are bytes here and UTF-16 units in
    JavaScript; the two agree on ASCII text, and no statement below depends
    on the cut. *)
Definition prefix_opt (n : nat) (d : option string) : option string :=
  String.substring 0 n <$> d.

Definition mkObjective (o : RawObjective) : Objective :=
  {| obj_id := bo_id o;
     obj_name := or_else (prefix_opt 60 (bo_description o)) (bo_id o);
     obj_source := bo_source_doc o |}.

Definition mkRequirement (ty : ReqType) (r : RawRequirement) : Requirement :=
  {| req_id := rr_id r;
     req_name := or_else (or_opt (rr_title r) (prefix_opt 50 (rr_description r)))
                         (rr_id r);
     req_source := rr_source_doc r;
     sourceQuote := rr_source_quote r;
     citationVerified := rr_citation_verified r;
     req_type := ty |}.

Definition buildObjectives (brd : Brd) : list Objective :=
  mkObjective <$> arrayOrEmpty (business_objectives brd).

Definition buildRequirements (brd : Brd) : list Requirement :=
  (mkRequirement functional <$> arrayOrEmpty (functional_requirements brd))
  ++ (mkRequirement non_functional
        <$> arrayOrEmpty (non_functional_requirements brd)).

(** ** Attribution and link construction *)

(** [a ?? b] on possibly undefined objects. *)
Definition nullish {A} (a b : option A) : option A :=
  match a with
  | Some x => Some x
  | None => b
  end.

(** The predicate handed to [sources.find] for a requirement. *)
Definition reqMatches (src : option string) (s : Source) : bool :=
  strictEq (src_type s) src || strictEq (src_id s) src
  || strictEq (src_name s) src.

(** The predicate handed to [sources.find] for an objective. *)
Definition objMatches (src : option string) (s : Source) : bool :=
  strictEq (src_type s) src || strictEq (src_name s) src.

(** [matchedSource] of the requirement loop. *)
Definition matchedSourceReq (sources : list Source) (req : Requirement)
  : option Source :=
  nullish (find (reqMatches (req_source req)) sources) (sources !! 0).

(** [matchedSource] of the objective loop. *)
Definition matchedSourceObj (sources : list Source) (obj : Objective)
  : option Source :=
  nullish (find (objMatches (obj_source obj)) sources) (sources !! 0).

(** [`${matchedSource.id} — ${matchedSource.name}`] *)
Definition sourceLabel (m : Source) : string :=
  src_id m +:+ " — " +:+ src_name m.

Definition reqLink (m : Source) (req : Requirement) : TraceabilityLink :=
  {| link_source := {| ls_id := src_id m; ls_type := N_source;
                       ls_name := sourceLabel m;
                       excerpt := sourceQuote req |};
     link_target := {| lt_id := req_id req; lt_type := N_requirement;
                       lt_name := req_name req |} |}.

Definition objLink (m : Source) (obj : Objective) : TraceabilityLink :=
  {| link_source := {| ls_id := src_id m; ls_type := N_source;
                       ls_name := sourceLabel m; excerpt := None |};
     link_target := {| lt_id := obj_id obj; lt_type := N_objective;
                       lt_name := obj_name obj |} |}.

Definition taskLink (req : Requirement) (t : Task) : TraceabilityLink :=
  {| link_source := {| ls_id := req_id req; ls_type := N_requirement;
                       ls_name := req_name req; excerpt := None |};
     link_target := {| lt_id := task_id t; lt_type := N_task;
                       lt_name := task_title t |} |}.

(** [links.push(x)] *)
Definition push {A} (links : list A) (x : A) : list A := links ++ [x].

(** Body of [requirements.forEach]. *)
Definition linkRequirement (sources : list Source)
    (links : list TraceabilityLink) (req : Requirement) :=
  match matchedSourceReq sources req with
  | Some m => push links (reqLink m req)
  | None => links
  end.

(** Body of [objectives.forEach]. *)
Definition linkObjective (sources : list Source)
    (links : list TraceabilityLink) (obj : Objective) :=
  match matchedSourceObj sources obj with
  | Some m => push links (objLink m obj)
  | None => links
  end.

(** Body of [(tasks || []).forEach]. *)
Definition linkTask (requirements : list Requirement)
    (links : list TraceabilityLink) (t : Task) :=
  if truthy (requirement_id t) then
    match find (λ r, strictEq (req_id r) (requirement_id t)) requirements with
    | Some req => push links (taskLink req t)
    | None => links
    end
  else links.

(** The three loops of the "Build links" block, in program order, over the
    array that starts empty. *)
Definition buildLinks (sources : list Source) (objectives : list Objective)
    (requirements : list Requirement) (tasks : list Task)
  : list TraceabilityLink :=
  let links := [] in
  let links := fold_left (linkRequirement sources) requirements links in
  let links := fold_left (linkObjective sources) objectives links in
  let links := fold_left (linkTask requirements) tasks links in
  links.

(** The state handed to [setTraceability]. *)
Record Traceability := {
  sources : list Source;
  objectives : list Objective;
  requirements : list Requirement;
  tasks : list Task;
  links : list TraceabilityLink;
}.

(** [fetchTraceability] once both queries have answered without error:
    [brd] is the row read from [brds], [tasksData] the rows read from [tasks]
    ([null] when the query returns no data). *)
Definition fetchTraceability (brd : Brd) (tasksData : option (list Task))
  : Traceability :=
  let rawSources := arrayOrEmpty (raw_sources brd) in
  let sources := buildSources rawSources in
  let objectives := buildObjectives brd in
  let requirements := buildRequirements brd in
  let tasks := arrayOrEmpty tasksData in
  {| sources := sources; objectives := objectives;
     requirements := requirements; tasks := tasks;
     links := buildLinks sources objectives requirements tasks |}.

(** ** Coverage analysis *)

(** [requirements.length > 0 ? count / requirements.length : 0] *)
Definition ratio (count total : nat) : Q :=
  if (0 <? total)%nat then Z.of_nat count # Pos.of_nat total else 0.

(** [requirements.filter(r => r.source).length] *)
Definition withSources (requirements : list Requirement) : nat :=
  length (List.filter (λ r, truthy (req_source r)) requirements).

(** [new Set(tasks.filter(t => t.requirement_id).map(t => t.requirement_id)).size] *)
Definition withTasks (tasks : list Task) : nat :=
  size (list_to_set (C := gset (option string))
          (requirement_id
             <$> List.filter (λ t, truthy (requirement_id t)) tasks)).

(** "Requirements with Sources": the fraction behind the first bar. *)
Definition sourceCoverage (t : Traceability) : Q :=
  ratio (withSources (requirements t)) (length (requirements t)).

(** "Requirements with Tasks": the fraction behind the second bar. *)
Definition taskCoverage (t : Traceability) : Q :=
  ratio (withTasks (tasks t)) (length (requirements t)).

(** ** Rendering *)

(** [r.citationVerified === false]: only an explicit [false] counts. *)
Definition unverified (r : Requirement) : bool :=
  match citationVerified r with
  | Some false => true
  | _ => false
  end.

(** [requirements.some(r => r.citationVerified === false)], the guard of the
    citation summary. *)
Definition showsCitationSummary (requirements : list Requirement) : bool :=
  existsb unverified requirements.

(** [requirements.filter(r => r.citationVerified === false).length], the
    number printed in the summary. *)
Definition unverifiedCount (requirements : list Requirement) : nat :=
  length (List.filter unverified requirements).

(** [links.length === 0], the guard of the "No traceability links found"
    placeholder. *)
Definition showsEmptyState (links : list TraceabilityLink) : bool :=
  match links with
  | [] => true
  | _ :: _ => false
  end.

(** [link.source.excerpt && ...], the guard of the "quote" badge of a row. *)
Definition showsQuote (l : TraceabilityLink) : bool :=
  truthy (excerpt (link_source l)).

(** [\d] of a regular expression without flags: an ASCII digit. *)
Definition isDigit (c : Ascii.ascii) : bool :=
  (48 <=? Ascii.nat_of_ascii c)%nat && (Ascii.nat_of_ascii c <=? 57)%nat.

(** The rest of [s] after its longest run of leading digits. *)
Fixpoint dropDigits (s : string) : string :=
  match s with
  | String c s' => if isDigit c then dropDigits s' else s
  | EmptyString => s
  end.

(** The rest of [s] after the literal [p], when [s] starts with [p]. *)
Fixpoint stripPrefix (p s : string) : option string :=
  match p, s with
  | EmptyString, _ => Some s
  | String a p', String b s' =>
      if Ascii.eqb a b then stripPrefix p' s' else None
  | String _ _, EmptyString => None
  end.

(** [link.source.name.replace(/^SRC-\d+ — /, '')], the text shown beside a
    row's source identifier.  The pattern is anchored at the start; after
    "SRC-" the greedy [\d+] takes the longest digit run, which must be
    non-empty and followed by " — " (giving digits back cannot help, the
    character after a shorter run being a digit).  Without a match the name
    is returned as it is. *)
Definition displaySourceName (name : string) : string :=
  match stripPrefix "SRC-" name with
  | Some (String c rest) =>
      if isDigit c then
        match stripPrefix " — " (dropDigits rest) with
        | Some shown => shown
        | None => name
        end
      else name
  | _ => name
  end.

(** A string of ASCII digits. *)
Fixpoint allDigits (s : string) : bool :=
  match s with
  | String c s' => isDigit c && allDigits s'
  | EmptyString => true
  end.

(** The task carries a reference that is the identifier of a requirement:
    the two tests of the task loop. *)
Definition namesRequirement (requirements : list Requirement) (t : Task)
  : bool :=
  truthy (requirement_id t)
  && existsb (λ r, strictEq (req_id r) (requirement_id t)) requirements.

(** ** Vocabulary of the statements *)

(** The link each loop body contributes for one element, if any. *)
Definition reqLinkOf (sources : list Source) (req : Requirement)
  : option TraceabilityLink :=
  (λ m, reqLink m req) <$> matchedSourceReq sources req.

Definition objLinkOf (sources : list Source) (obj : Objective)
  : option TraceabilityLink :=
  (λ m, objLink m obj) <$> matchedSourceObj sources obj.

Definition taskLinkOf (requirements : list Requirement) (t : Task)
  : option TraceabilityLink :=
  if truthy (requirement_id t) then
    (λ req, taskLink req t)
      <$> find (λ r, strictEq (req_id r) (requirement_id t)) requirements
  else None.

(** Kinds of the two endpoints of a link. *)
Definition linkKind (l : TraceabilityLink) : NodeKind * NodeKind :=
  (ls_type (link_source l), lt_type (link_target l)).

Definition hasKind (k : NodeKind * NodeKind) (l : TraceabilityLink) : bool :=
  bool_decide (linkKind l = k).

(** Links leaving a data source. *)
Definition sourceLinks (ls : list TraceabilityLink) : list TraceabilityLink :=
  List.filter (λ l, bool_decide (ls_type (link_source l) = N_source)) ls.

(** Identifiers of the nodes of one kind in the rendered state. *)
Definition nodeIds (t : Traceability) (k : NodeKind) : list string :=
  match k with
  | N_source => src_id <$> sources t
  | N_objective => obj_id <$> objectives t
  | N_requirement => req_id <$> requirements t
  | N_task => task_id <$> tasks t
  end.

(** A task that names no requirement of the document. *)
Definition orphan (requirements : list Requirement) (t : Task) : Prop :=
  ∀ r, r ∈ requirements → requirement_id t ≠ Some (req_id r).

(** Every task that carries a requirement reference names a requirement of
    the document. *)
Definition refersToRequirements (requirements : list Requirement)
    (tasks : list Task) : Prop :=
  ∀ tk, tk ∈ tasks → truthy (requirement_id tk) = true →
    ∃ r, r ∈ requirements ∧ requirement_id tk = Some (req_id r).

(** No data source equals the attribution text by type, identifier or name. *)
Definition unmatched (sources : list Source) (src : option string) : Prop :=
  ∀ s, s ∈ sources →
    Some (src_type s) ≠ src ∧ Some (src_id s) ≠ src ∧ Some (src_name s) ≠ src.

(** ** The specification's wording, for comparison with the code *)

(** The strategy chain as the specification words it: a pass over the whole
    registry by origin type, then one by identifier, then one by display
    name, then the first source. *)
Definition spec_strategyChain (sources : list Source) (src : option string)
  : option Source :=
  nullish (find (λ s, strictEq (src_type s) src) sources)
    (nullish (find (λ s, strictEq (src_id s) src) sources)
       (nullish (find (λ s, strictEq (src_name s) src) sources)
          (sources !! 0))).

(** A requirement with an inbound link from a data source in the link set. *)
Definition spec_linkedFromSource (ls : list TraceabilityLink)
    (r : Requirement) : bool :=
  existsb (λ l, hasKind (N_source, N_requirement) l
                && String.eqb (lt_id (link_target l)) (req_id r)) ls.

(** A requirement with an outbound link to a task in the link set. *)
Definition spec_linkedToTask (ls : list TraceabilityLink)
    (r : Requirement) : bool :=
  existsb (λ l, hasKind (N_requirement, N_task) l
                && String.eqb (ls_id (link_source l)) (req_id r)) ls.

(** The two ratios as the specification words them: over the link set. *)
Definition spec_sourceCoverage (t : Traceability) : Q :=
  ratio (length (List.filter (spec_linkedFromSource (links t)) (requirements t)))
        (length (requirements t)).

Definition spec_taskCoverage (t : Traceability) : Q :=
  ratio (length (List.filter (spec_linkedToTask (links t)) (requirements t)))
        (length (requirements t)).

(** The link order as the specification words it: objective links, then
    requirement links, then task links. *)
Definition spec_linkOrder (ls : list TraceabilityLink) : Prop :=
  ∃ os rs ts, ls = os ++ rs ++ ts
    ∧ Forall (λ l, linkKind l = (N_source, N_objective)) os
    ∧ Forall (λ l, linkKind l = (N_source, N_requirement)) rs
    ∧ Forall (λ l, linkKind l = (N_requirement, N_task)) ts.

(** ** Sample inputs *)

Definition rawOfType (ty : string) : RawSource :=
  RawObject (Some ty) None None None.

Definition rawReq (id : string) (src : option string) : RawRequirement :=
  {| rr_id := id; rr_title := None; rr_description := None;
     rr_source_doc := src; rr_source_quote := None;
     rr_citation_verified := None |}.

Definition rawObj (id : string) (src : option string) : RawObjective :=
  {| bo_id := id; bo_description := None; bo_source_doc := src |}.

Definition mkTask (id : string) (rid : option string) : Task :=
  {| task_id := id; task_title := id; requirement_id := rid;
     task_status := "todo" |}.

Definition mkBrd (raws : list RawSource) (objs : list RawObjective)
    (frs nfrs : list RawRequirement) : Brd :=
  {| raw_sources := Some raws; business_objectives := Some objs;
     functional_requirements := Some frs;
     non_functional_requirements := Some nfrs |}.

(** One source, one objective and one requirement, all citing "email". *)
Definition brd_order : Brd :=
  mkBrd [rawOfType "email"] [rawObj "BO-1" (Some "email")]
        [rawReq "FR-1" (Some "email")] [].

(** A Slack source named "email" recorded before an e-mail source. *)
Definition brd_chain : Brd :=
  mkBrd [RawObject (Some "slack") (Some "email") None None; rawOfType "email"]
        [] [rawReq "FR-1" (Some "email")] [].

(** No raw source; two requirements that carry a source field. *)
Definition brd_unlinked : Brd :=
  mkBrd [] [] [rawReq "FR-1" (Some "email"); rawReq "FR-2" (Some "SRC-1")] [].

(** One requirement and nothing else. *)
Definition brd_single : Brd := mkBrd [] [] [rawReq "FR-1" None] [].

(** A task derived from the requirement and one derived from an objective. *)
Definition tasks_mixed : list Task :=
  [mkTask "t1" (Some "FR-1"); mkTask "t2" (Some "BO-1")].

(** ** Scenarios of the specification, run on the model *)

(** Scenario A: one e-mail source, one requirement citing "email". *)
Example scenario_A :
  let t := fetchTraceability
             (mkBrd [rawOfType "email"] [] [rawReq "FR-1" (Some "email")] [])
             None in
  (λ l, (ls_id (link_source l), lt_id (link_target l))) <$> links t
    = [("SRC-1", "FR-1")]
  ∧ sourceCoverage t = 1%Q.
Proof. vm_compute. done. Qed.

(** Scenario D: one requirement and one task that names it. *)
Example scenario_D :
  let t := fetchTraceability (mkBrd [] [] [rawReq "FR-1" None] [])
             (Some [mkTask "t1" (Some "FR-1")]) in
  (λ l, (ls_id (link_source l), lt_id (link_target l))) <$> links t
    = [("FR-1", "t1")]
  ∧ taskCoverage t = 1%Q.
Proof. vm_compute. done. Qed.

(** ** Basic facts about the helpers *)

(** Case analysis on membership in a list written out by its elements: one
    goal per element, with the member replaced by it. *)
Ltac list_members H :=
  repeat (apply elem_of_cons in H as [H|H]; [try subst|]);
  try (apply elem_of_nil in H; contradiction).

Lemma strictEq_true x y : strictEq x y = true ↔ y = Some x.
Proof.
  destruct y as [s|]; simpl; [|split; discriminate].
  rewrite String.eqb_eq. split; [intros ->; reflexivity | congruence].
Qed.

Lemma strictEq_false x y : strictEq x y = false ↔ y ≠ Some x.
Proof.
  rewrite <- strictEq_true. destruct (strictEq x y); split; congruence.
Qed.

Lemma truthy_Some s : truthy (Some s) = true ↔ s ≠ "".
Proof.
  simpl. rewrite negb_true_iff. rewrite String.eqb_neq. reflexivity.
Qed.

Lemma or_else_present s d : s ≠ "" → or_else (Some s) d = s.
Proof.
  intros Hs. simpl. apply String.eqb_neq in Hs. rewrite Hs. reflexivity.
Qed.

Lemma reqMatches_false src s :
  reqMatches src s = false
  ↔ Some (src_type s) ≠ src ∧ Some (src_id s) ≠ src ∧ Some (src_name s) ≠ src.
Proof.
  unfold reqMatches. rewrite !orb_false_iff, !strictEq_false.
  split; intros [[??]?] || intros [?[??]]; repeat split; congruence.
Qed.

Lemma objMatches_reqMatches src s :
  objMatches src s = true → reqMatches src s = true.
Proof.
  unfold objMatches, reqMatches. rewrite !orb_true_iff. tauto.
Qed.

Lemma find_none_iff {A} (f : A → bool) (l : list A) :
  find f l = None ↔ ∀ x, x ∈ l → f x = false.
Proof.
  split.
  - intros H x Hx. apply list_elem_of_In in Hx. eapply find_none; eassumption.
  - induction l as [|a l IH]; intros H; simpl; [reflexivity|].
    rewrite (H a) by constructor. apply IH. intros x Hx. apply H.
    by constructor.
Qed.

(** [find] returns the first element on which the predicate holds. *)
Lemma find_first {A} (f : A → bool) (pre : list A) (x : A) (post : list A) :
  (∀ p, p ∈ pre → f p = false) → f x = true →
  find f (pre ++ x :: post) = Some x.
Proof.
  intros Hpre Hx. induction pre as [|p pre IH]; simpl.
  - by rewrite Hx.
  - rewrite (Hpre p) by constructor. apply IH. intros q Hq. apply Hpre.
    by constructor.
Qed.

(** ** The three loops as list comprehensions *)

Lemma fold_linkRequirement srcs reqs acc :
  fold_left (linkRequirement srcs) reqs acc = acc ++ omap (reqLinkOf srcs) reqs.
Proof.
  revert acc. induction reqs as [|r reqs IH]; intros acc; simpl.
  - by rewrite app_nil_r.
  - rewrite IH. unfold linkRequirement, reqLinkOf, push.
    destruct (matchedSourceReq srcs r); simpl; [|done].
    by rewrite <- app_assoc.
Qed.

Lemma fold_linkObjective srcs objs acc :
  fold_left (linkObjective srcs) objs acc = acc ++ omap (objLinkOf srcs) objs.
Proof.
  revert acc. induction objs as [|o objs IH]; intros acc; simpl.
  - by rewrite app_nil_r.
  - rewrite IH. unfold linkObjective, objLinkOf, push.
    destruct (matchedSourceObj srcs o); simpl; [|done].
    by rewrite <- app_assoc.
Qed.

Lemma fold_linkTask reqs ts acc :
  fold_left (linkTask reqs) ts acc = acc ++ omap (taskLinkOf reqs) ts.
Proof.
  revert acc. induction ts as [|t ts IH]; intros acc; simpl.
  - by rewrite app_nil_r.
  - rewrite IH. unfold linkTask, taskLinkOf, push.
    destruct (truthy (requirement_id t)); [|done].
    destruct (find _ reqs); simpl; [|done].
    by rewrite <- app_assoc.
Qed.

Lemma buildLinks_segments srcs objs reqs ts :
  buildLinks srcs objs reqs ts
  = omap (reqLinkOf srcs) reqs ++ omap (objLinkOf srcs) objs
    ++ omap (taskLinkOf reqs) ts.
Proof.
  unfold buildLinks.
  rewrite fold_linkTask, fold_linkObjective, fold_linkRequirement.
  by rewrite <- app_assoc.
Qed.

Lemma reqLinkOf_kind srcs r l :
  reqLinkOf srcs r = Some l → linkKind l = (N_source, N_requirement).
Proof.
  unfold reqLinkOf. destruct (matchedSourceReq srcs r); simpl; [|done].
  by intros [= <-].
Qed.

Lemma objLinkOf_kind srcs o l :
  objLinkOf srcs o = Some l → linkKind l = (N_source, N_objective).
Proof.
  unfold objLinkOf. destruct (matchedSourceObj srcs o); simpl; [|done].
  by intros [= <-].
Qed.

Lemma taskLinkOf_kind reqs t l :
  taskLinkOf reqs t = Some l → linkKind l = (N_requirement, N_task).
Proof.
  unfold taskLinkOf. destruct (truthy _); [|done].
  destruct (find _ reqs); simpl; [|done]. by intros [= <-].
Qed.

Lemma omap_Forall {A B} (f : A → option B) (P : B → Prop) (l : list A) :
  (∀ a b, f a = Some b → P b) → Forall P (omap f l).
Proof.
  intros H. apply Forall_forall. intros b Hb.
  apply list_elem_of_omap in Hb as (a & _ & Ha). eauto.
Qed.

Lemma omap_sublist {A B C} (f : A → option B) (g : A → C) (h : B → C)
    (l : list A) :
  (∀ a b, f a = Some b → h b = g a) →
  sublist (h <$> omap f l) (g <$> l).
Proof.
  intros H. induction l as [|a l IH]; simpl; [constructor|].
  destruct (f a) as [b|] eqn:Hb; simpl.
  - rewrite (H a b Hb). by constructor.
  - by constructor.
Qed.

(** ** Link order *)

(** C5, as stated, fails: with one source, one objective and one requirement
    the requirement link is emitted before the objective link, so the links
    are not "objective links, then requirement links, then task links". *)
Lemma link_order_counterexample :
  linkKind <$> links (fetchTraceability brd_order None)
    = [(N_source, N_requirement); (N_source, N_objective)]
  ∧ ¬ spec_linkOrder (links (fetchTraceability brd_order None)).
Proof.
  assert (linkKind <$> links (fetchTraceability brd_order None)
          = [(N_source, N_requirement); (N_source, N_objective)]) as Hk
    by (vm_compute; reflexivity).
  split; [exact Hk|].
  intros (os & rs & ts & Heq & Ho & Hr & Ht).
  apply (f_equal (fmap linkKind)) in Heq. rewrite Hk, !fmap_app in Heq.
  apply (Forall_fmap linkKind (λ k, k = (N_source, N_objective))) in Ho.
  apply (Forall_fmap linkKind (λ k, k = (N_source, N_requirement))) in Hr.
  apply (Forall_fmap linkKind (λ k, k = (N_requirement, N_task))) in Ht.
  destruct (linkKind <$> os) as [|o1 os'].
  - destruct (linkKind <$> rs) as [|r1 [|r2 rs']]; simpl in Heq.
    + rewrite <- Heq in Ht. by inversion Ht.
    + injection Heq as _ Heq. rewrite <- Heq in Ht. by inversion Ht.
    + injection Heq as _ Heq2 _. subst r2.
      inversion Hr as [|?? _ Hr']. by inversion Hr'.
  - simpl in Heq. injection Heq as Heq1 _. subst o1. by inversion Ho.
Qed.

(** C5, amended: the links are emitted in program order: all
    source→requirement links (requirement list order, functional before
    non-functional), then all source→objective links (objective list order),
    then all requirement→task links (task list order). *)
Theorem link_order brd tasksData :
  let t := fetchTraceability brd tasksData in
  let rs := omap (reqLinkOf (sources t)) (requirements t) in
  let os := omap (objLinkOf (sources t)) (objectives t) in
  let ts := omap (taskLinkOf (requirements t)) (tasks t) in
  links t = rs ++ os ++ ts
  ∧ Forall (λ l, linkKind l = (N_source, N_requirement)) rs
  ∧ Forall (λ l, linkKind l = (N_source, N_objective)) os
  ∧ Forall (λ l, linkKind l = (N_requirement, N_task)) ts
  ∧ sublist ((λ l, lt_id (link_target l)) <$> rs)
            ((rr_id <$> arrayOrEmpty (functional_requirements brd))
             ++ (rr_id <$> arrayOrEmpty (non_functional_requirements brd)))
  ∧ sublist ((λ l, lt_id (link_target l)) <$> os)
            (bo_id <$> arrayOrEmpty (business_objectives brd))
  ∧ sublist ((λ l, lt_id (link_target l)) <$> ts)
            (task_id <$> arrayOrEmpty tasksData).
Proof.
  simpl. split; [apply buildLinks_segments|].
  split; [apply omap_Forall, reqLinkOf_kind|].
  split; [apply omap_Forall, objLinkOf_kind|].
  split; [apply omap_Forall, taskLinkOf_kind|].
  split; [|split].
  - replace ((rr_id <$> arrayOrEmpty (functional_requirements brd))
             ++ (rr_id <$> arrayOrEmpty (non_functional_requirements brd)))
      with (req_id <$> buildRequirements brd).
    + apply omap_sublist. intros r l. unfold reqLinkOf.
      destruct (matchedSourceReq _ r); simpl; [|done]. by intros [= <-].
    + unfold buildRequirements. rewrite fmap_app.
      by rewrite <- !list_fmap_compose.
  - replace (bo_id <$> arrayOrEmpty (business_objectives brd))
      with (obj_id <$> buildObjectives brd).
    + apply omap_sublist. intros o l. unfold objLinkOf.
      destruct (matchedSourceObj _ o); simpl; [|done]. by intros [= <-].
    + unfold buildObjectives. by rewrite <- list_fmap_compose.
  - apply omap_sublist. intros t l. unfold taskLinkOf.
    destruct (truthy _); [|done].
    destruct (find _ _); simpl; [|done]. by intros [= <-].
Qed.

(** ** Source registry: identifiers *)

Global Instance buildSourceId_inj : Inj (=) (=) buildSourceId.
Proof.
  intros i j H. unfold buildSourceId in H.
  apply (inj (String.append "SRC-")) in H. apply (inj pretty) in H. lia.
Qed.

Lemma buildSources_ids raws :
  src_id <$> buildSources raws = buildSourceId <$> seq 0 (length raws).
Proof.
  unfold buildSources. rewrite fmap_imap.
  apply (imap_seq_0 raws buildSourceId).
Qed.

Lemma buildSources_snoc raws r :
  buildSources (raws ++ [r]) = buildSources raws ++ [mkSource (length raws) r].
Proof.
  unfold buildSources. rewrite imap_app. simpl.
  by rewrite Nat.add_0_r.
Qed.

(** C6: the source at index [i] gets the identifier "SRC-" followed by
    [i + 1] in decimal; identifiers are pairwise distinct; they are a function
    of the list alone; appending a raw source keeps every earlier registry
    entry and gives the new one the next identifier. *)
Theorem source_identifiers (raws : list RawSource) :
  (∀ i s, buildSources raws !! i = Some s →
          src_id s = "SRC-" +:+ pretty (i + 1))
  ∧ src_id <$> buildSources raws = buildSourceId <$> seq 0 (length raws)
  ∧ NoDup (src_id <$> buildSources raws)
  ∧ (∀ brd tasksData,
       sources (fetchTraceability brd tasksData)
       = buildSources (arrayOrEmpty (raw_sources brd)))
  ∧ (∀ r, buildSources (raws ++ [r])
            = buildSources raws ++ [mkSource (length raws) r]
          ∧ src_id (mkSource (length raws) r)
            = "SRC-" +:+ pretty (length raws + 1)).
Proof.
  split; [|split; [|split; [|split]]].
  - intros i s Hs. unfold buildSources in Hs.
    apply list_lookup_imap_Some in Hs as (r & _ & ->). reflexivity.
  - apply buildSources_ids.
  - rewrite buildSources_ids. apply NoDup_fmap_2; [apply _|apply NoDup_seq].
  - reflexivity.
  - intros r. split; [apply buildSources_snoc|reflexivity].
Qed.

Lemma source_identifiers_witness :
  src_id (mkSource 1 (RawString "pasted notes")) = "SRC-2".
Proof.
  exact (proj1 (source_identifiers [rawOfType "email"; RawString "pasted notes"])
           1%nat (mkSource 1 (RawString "pasted notes")) eq_refl).
Defined.

(** ** Source registry: origin type *)

(** C9, as stated, fails: a type outside [SOURCE_TYPE_CONFIG] is kept as the
    registry entry's type, it is not replaced by "document". *)
Lemma origin_type_counterexample :
  ("jira" ∉ SOURCE_TYPE_KEYS)
  ∧ src_type <$> buildSources [rawOfType "jira"] = ["jira"]
  ∧ src_type <$> buildSources [rawOfType "jira"] ≠ ["document"].
Proof.
  split; [|split].
  - unfold SOURCE_TYPE_KEYS. rewrite !elem_of_cons, elem_of_nil.
    intros H. repeat destruct H as [H|H]; done.
  - reflexivity.
  - discriminate.
Qed.

(** C9, amended: the registry entry's type is the raw entry's type field
    whenever that field is present and non-empty, recognised or not, and
    "document" when the field is absent or empty (a bare string has no
    fields); the registry has one entry per raw source, and the empty list
    yields the empty registry. *)
Theorem origin_type (raws : list RawSource) :
  (∀ i r, raws !! i = Some r →
     ∃ s, buildSources raws !! i = Some s
          ∧ (∀ ty, raw_type r = Some ty → ty ≠ "" → src_type s = ty)
          ∧ (raw_type r = None ∨ raw_type r = Some "" →
             src_type s = "document"))
  ∧ length (buildSources raws) = length raws
  ∧ buildSources [] = [].
Proof.
  split; [|split].
  - intros i r Hr. exists (mkSource i r). split; [|split].
    + unfold buildSources. rewrite list_lookup_imap, Hr. reflexivity.
    + intros ty Hty Hne. simpl. rewrite Hty. by apply or_else_present.
    + intros [H|H]; simpl; rewrite H; reflexivity.
  - apply length_imap.
  - reflexivity.
Qed.

Lemma origin_type_witness :
  ∃ s, buildSources [rawOfType "slack"; RawString "pasted notes"] !! 0%nat
       = Some s
       ∧ src_type s = "slack".
Proof.
  destruct (proj1 (origin_type [rawOfType "slack"; RawString "pasted notes"])
              0%nat (rawOfType "slack") eq_refl) as (s & Hs & Hty & _).
  exists s. split; [exact Hs|]. apply Hty; [reflexivity|discriminate].
Defined.

(** ** Attribution *)

Lemma matchedSourceReq_first srcs pre s post req :
  srcs = pre ++ s :: post →
  (∀ p, p ∈ pre → reqMatches (req_source req) p = false) →
  reqMatches (req_source req) s = true →
  matchedSourceReq srcs req = Some s.
Proof.
  intros -> Hpre Hs. unfold matchedSourceReq.
  by rewrite (find_first _ pre s post Hpre Hs).
Qed.

Lemma matchedSourceReq_unmatched srcs req :
  unmatched srcs (req_source req) → matchedSourceReq srcs req = srcs !! 0%nat.
Proof.
  intros Hno. unfold matchedSourceReq.
  replace (find _ srcs) with (@None Source); [reflexivity|].
  symmetry. apply find_none_iff. intros s Hs. apply reqMatches_false. auto.
Qed.

Lemma matchedSourceObj_unmatched srcs obj :
  unmatched srcs (obj_source obj) → matchedSourceObj srcs obj = srcs !! 0%nat.
Proof.
  intros Hno. unfold matchedSourceObj.
  replace (find _ srcs) with (@None Source); [reflexivity|].
  symmetry. apply find_none_iff. intros s Hs.
  destruct (objMatches _ s) eqn:Hm; [|reflexivity].
  apply objMatches_reqMatches in Hm.
  assert (reqMatches (obj_source obj) s = false) as Hf
    by (apply reqMatches_false; auto).
  congruence.
Qed.

(** Without an identifier hit the objective predicate is the requirement
    predicate. *)
Lemma objMatches_no_id src s :
  Some (src_id s) ≠ src → objMatches src s = reqMatches src s.
Proof.
  intros Hid. unfold objMatches, reqMatches.
  replace (strictEq (src_id s) src) with false; [by rewrite orb_false_r|].
  symmetry. apply strictEq_false. congruence.
Qed.

(** C1, as stated, fails: the second source has origin type "email", the
    first matches "email" by display name only, and the requirement citing
    "email" is attributed to the first. The strategy chain of the
    specification would pick the second. *)
Lemma attribution_counterexample :
  let t := fetchTraceability brd_chain None in
  (λ s, (src_id s, src_type s, src_name s)) <$> sources t
    = [("SRC-1", "slack", "email"); ("SRC-2", "email", "email")]
  ∧ (λ l, (ls_id (link_source l), lt_id (link_target l))) <$> links t
    = [("SRC-1", "FR-1")]
  ∧ src_id <$> spec_strategyChain (sources t) (Some "email") = Some "SRC-2".
Proof. vm_compute. done. Qed.

(** C1, amended: a requirement with a source field is attributed to the
    first data source, in registry order, whose origin type, identifier or
    display name equals that field; the three comparisons are made on each
    source in turn, so an earlier source matching by display name only wins
    over a later one matching by origin type. An objective whose source field
    is no data source's identifier is attributed by the same rule. *)
Theorem attribution_first_match srcs pre s post (x : string) :
  srcs = pre ++ s :: post →
  (∀ p, p ∈ pre → src_type p ≠ x ∧ src_id p ≠ x ∧ src_name p ≠ x) →
  src_type s = x ∨ src_id s = x ∨ src_name s = x →
  (∀ req, req_source req = Some x →
     matchedSourceReq srcs req = Some s
     ∧ ∀ acc, linkRequirement srcs acc req = acc ++ [reqLink s req])
  ∧ (∀ obj, obj_source obj = Some x →
       (∀ p, p ∈ srcs → src_id p ≠ x) →
       matchedSourceObj srcs obj = Some s
       ∧ ∀ acc, linkObjective srcs acc obj = acc ++ [objLink s obj]).
Proof.
  intros Hsrcs Hpre Hs.
  assert (∀ p, p ∈ pre → reqMatches (Some x) p = false) as Hpre'.
  { intros p Hp. apply reqMatches_false.
    destruct (Hpre p Hp) as (?&?&?). repeat split; congruence. }
  assert (reqMatches (Some x) s = true) as Hs'.
  { unfold reqMatches. rewrite !orb_true_iff, !strictEq_true.
    destruct Hs as [<-|[<-|<-]]; auto. }
  split.
  - intros req Hreq.
    assert (matchedSourceReq srcs req = Some s) as Hm.
    { apply (matchedSourceReq_first srcs pre s post); rewrite ?Hreq; auto. }
    split; [exact Hm|]. intros acc. unfold linkRequirement. by rewrite Hm.
  - intros obj Hobj Hid.
    assert (matchedSourceObj srcs obj = Some s) as Hm.
    { unfold matchedSourceObj. rewrite Hobj, Hsrcs.
      rewrite (find_first _ pre s post); [reflexivity| |].
      - intros p Hp. rewrite objMatches_no_id; [auto|].
        intros [= E]. apply (Hid p); [|exact E].
        rewrite Hsrcs. apply elem_of_app. by left.
      - rewrite objMatches_no_id; [auto|].
        intros [= E]. apply (Hid s); [|exact E].
        rewrite Hsrcs. apply elem_of_app. right. by constructor. }
    split; [exact Hm|]. intros acc. unfold linkObjective. by rewrite Hm.
Qed.

Lemma attribution_first_match_witness :
  let srcs := buildSources [RawObject (Some "slack") (Some "email") None None;
                            rawOfType "email"] in
  let s := mkSource 0 (RawObject (Some "slack") (Some "email") None None) in
  matchedSourceReq srcs (mkRequirement functional (rawReq "FR-1" (Some "email")))
    = Some s
  ∧ matchedSourceObj srcs (mkObjective (rawObj "BO-1" (Some "email"))) = Some s.
Proof.
  intros srcs s.
  assert (∀ p, p ∈ @nil Source →
            src_type p ≠ "email" ∧ src_id p ≠ "email" ∧ src_name p ≠ "email")
    as Hpre by (intros p Hp; by apply elem_of_nil in Hp).
  destruct (attribution_first_match srcs [] s [mkSource 1 (rawOfType "email")]
              "email" eq_refl Hpre (or_intror (or_intror eq_refl)))
    as [Hreq Hobj].
  split.
  - apply Hreq. reflexivity.
  - apply Hobj; [reflexivity|].
    intros p Hp. subst srcs. vm_compute in Hp.
    list_members Hp; discriminate.
Defined.

(** C8: when no data source equals an item's source field by origin type,
    identifier or display name (in particular when the field is absent), the
    item is attributed to the first data source of a non-empty registry and
    its link is emitted from that source; with an empty registry it is left
    unattributed and no link is emitted. This holds for requirements and for
    objectives. *)
Theorem attribution_fallback srcs (src : option string) :
  unmatched srcs src →
  (∀ req, req_source req = src →
     match srcs with
     | s0 :: _ => matchedSourceReq srcs req = Some s0
                  ∧ ∀ acc, linkRequirement srcs acc req = acc ++ [reqLink s0 req]
     | [] => matchedSourceReq srcs req = None
             ∧ ∀ acc, linkRequirement srcs acc req = acc
     end)
  ∧ (∀ obj, obj_source obj = src →
       match srcs with
       | s0 :: _ => matchedSourceObj srcs obj = Some s0
                    ∧ ∀ acc, linkObjective srcs acc obj = acc ++ [objLink s0 obj]
       | [] => matchedSourceObj srcs obj = None
               ∧ ∀ acc, linkObjective srcs acc obj = acc
       end).
Proof.
  intros Hno. split.
  - intros req <-. pose proof (matchedSourceReq_unmatched srcs req Hno) as Hm.
    unfold linkRequirement. rewrite Hm. by destruct srcs.
  - intros obj <-. pose proof (matchedSourceObj_unmatched srcs obj Hno) as Hm.
    unfold linkObjective. rewrite Hm. by destruct srcs.
Qed.

(** Scenario B: one Slack source, one requirement citing "unknown-reference". *)
Lemma attribution_fallback_witness :
  let srcs := buildSources [rawOfType "slack"] in
  let req := mkRequirement functional
               (rawReq "FR-1" (Some "unknown-reference")) in
  src_id <$> matchedSourceReq srcs req = Some "SRC-1"
  ∧ (λ l, (ls_id (link_source l), lt_id (link_target l)))
      <$> linkRequirement srcs [] req = [("SRC-1", "FR-1")].
Proof.
  intros srcs req.
  assert (unmatched srcs (Some "unknown-reference")) as Hno.
  { intros s Hs. subst srcs. vm_compute in Hs.
    list_members Hs. by repeat split. }
  destruct (proj1 (attribution_fallback srcs _ Hno) req eq_refl) as [Hm Hl].
  split; [by rewrite Hm|by rewrite Hl].
Defined.

(** ** Links and the node set *)

Lemma find_elem_of {A} (f : A → bool) (l : list A) (x : A) :
  find f l = Some x → x ∈ l ∧ f x = true.
Proof.
  intros H. apply find_some in H as [Hin Hf]. split; [|exact Hf].
  by apply list_elem_of_In.
Qed.

Lemma nullish_find_elem_of {A} (f : A → bool) (l : list A) (x : A) :
  nullish (find f l) (l !! 0%nat) = Some x → x ∈ l.
Proof.
  destruct (find f l) as [y|] eqn:Hf; simpl.
  - intros [= <-]. by apply find_elem_of in Hf as [? _].
  - apply list_elem_of_lookup_2.
Qed.

Lemma matchedSourceReq_elem_of srcs req m :
  matchedSourceReq srcs req = Some m → m ∈ srcs.
Proof. apply nullish_find_elem_of. Qed.

Lemma matchedSourceObj_elem_of srcs obj m :
  matchedSourceObj srcs obj = Some m → m ∈ srcs.
Proof. apply nullish_find_elem_of. Qed.

Lemma taskLinkOf_Some reqs t l :
  taskLinkOf reqs t = Some l →
  ∃ req, req ∈ reqs ∧ requirement_id t = Some (req_id req) ∧ l = taskLink req t.
Proof.
  unfold taskLinkOf. destruct (truthy _); [|done].
  destruct (find _ reqs) as [req|] eqn:Hf; simpl; [|done].
  intros [= <-]. apply find_elem_of in Hf as [Hin Heq].
  apply strictEq_true in Heq. eauto.
Qed.

Lemma taskLinkOf_truthy reqs t l :
  taskLinkOf reqs t = Some l → truthy (requirement_id t) = true.
Proof. unfold taskLinkOf. by destruct (truthy _). Qed.

(** A task that names the identifier of a listed requirement gets a link from
    a requirement with that identifier. *)
Lemma taskLinkOf_named reqs t r :
  r ∈ reqs → truthy (requirement_id t) = true →
  requirement_id t = Some (req_id r) →
  ∃ req, req_id req = req_id r ∧ taskLinkOf reqs t = Some (taskLink req t).
Proof.
  intros Hin Htr Hid. unfold taskLinkOf. rewrite Htr.
  destruct (find _ reqs) as [req|] eqn:Hf; simpl.
  - exists req. split; [|reflexivity]. apply find_elem_of in Hf as [_ Heq].
    apply strictEq_true in Heq. congruence.
  - rewrite find_none_iff in Hf. specialize (Hf r Hin).
    apply strictEq_false in Hf. congruence.
Qed.

Lemma taskLinkOf_orphan reqs t : orphan reqs t → taskLinkOf reqs t = None.
Proof.
  intros Ho. destruct (taskLinkOf reqs t) as [l|] eqn:Hl; [|reflexivity].
  apply taskLinkOf_Some in Hl as (req & Hin & Heq & _).
  by destruct (Ho req Hin).
Qed.

(** C7: both endpoints of every emitted link are nodes of the rendered state,
    of the kind the link records; a task whose requirement reference names no
    requirement adds no link, wherever it stands in the task list. *)
Theorem no_dangling_links brd tasksData :
  let t := fetchTraceability brd tasksData in
  (∀ l, l ∈ links t →
     ls_id (link_source l) ∈ nodeIds t (ls_type (link_source l))
     ∧ lt_id (link_target l) ∈ nodeIds t (lt_type (link_target l)))
  ∧ (∀ ts1 o ts2, orphan (requirements t) o →
       linkTask (requirements t) (links t) o = links t
       ∧ links (fetchTraceability brd (Some (ts1 ++ o :: ts2)))
         = links (fetchTraceability brd (Some (ts1 ++ ts2)))).
Proof.
  simpl. split.
  - intros l. rewrite buildLinks_segments, !elem_of_app.
    rewrite !list_elem_of_omap. intros [H|[H|H]].
    + destruct H as (r & Hr & Hl). unfold reqLinkOf in Hl.
      destruct (matchedSourceReq _ r) as [m|] eqn:Hm; simpl in Hl; [|done].
      injection Hl as <-. simpl. split.
      * apply list_elem_of_fmap_2. by apply matchedSourceReq_elem_of in Hm.
      * by apply list_elem_of_fmap_2.
    + destruct H as (o & Ho & Hl). unfold objLinkOf in Hl.
      destruct (matchedSourceObj _ o) as [m|] eqn:Hm; simpl in Hl; [|done].
      injection Hl as <-. simpl. split.
      * apply list_elem_of_fmap_2. by apply matchedSourceObj_elem_of in Hm.
      * by apply list_elem_of_fmap_2.
    + destruct H as (t & Ht & Hl).
      apply taskLinkOf_Some in Hl as (req & Hin & _ & ->). simpl. split.
      * by apply list_elem_of_fmap_2.
      * by apply list_elem_of_fmap_2.
  - intros ts1 o ts2 Ho. pose proof (taskLinkOf_orphan _ o Ho) as Hnone. split.
    + unfold taskLinkOf in Hnone. unfold linkTask.
      destruct (truthy _); [|done]. by destruct (find _ _).
    + rewrite !buildLinks_segments. do 2 f_equal.
      rewrite !omap_app. simpl. by rewrite Hnone.
Qed.

(** Scenario E: the only task refers to "FR-99", which is no requirement. *)
Lemma no_dangling_links_witness :
  let brd := mkBrd [rawOfType "email"] [] [rawReq "FR-1" (Some "email")] [] in
  let o := mkTask "t9" (Some "FR-99") in
  links (fetchTraceability brd (Some [o])) = links (fetchTraceability brd (Some []))
  ∧ "SRC-1" ∈ nodeIds (fetchTraceability brd (Some [o])) N_source
  ∧ "FR-1" ∈ nodeIds (fetchTraceability brd (Some [o])) N_requirement.
Proof.
  intros brd o.
  destruct (no_dangling_links brd (Some [o])) as [Hends Horphan].
  assert (orphan (requirements (fetchTraceability brd (Some [o]))) o) as Ho.
  { intros r Hr. vm_compute in Hr. list_members Hr. discriminate. }
  split; [exact (proj2 (Horphan [] o [] Ho))|].
  apply (Hends (reqLink (mkSource 0 (rawOfType "email"))
                        (mkRequirement functional (rawReq "FR-1" (Some "email"))))).
  vm_compute. by constructor.
Defined.

(** ** One source link per item *)

Lemma filter_all {A} (f : A → bool) (l : list A) :
  Forall (λ x, f x = true) l → List.filter f l = l.
Proof.
  induction 1 as [|x l Hx _ IH]; simpl; [reflexivity|]. by rewrite Hx, IH.
Qed.

Lemma filter_none {A} (f : A → bool) (l : list A) :
  Forall (λ x, f x = false) l → List.filter f l = [].
Proof.
  induction 1 as [|x l Hx _ IH]; simpl; [reflexivity|]. by rewrite Hx.
Qed.

Lemma omap_total {A B} (f : A → option B) (g : A → B) (l : list A) :
  (∀ a, a ∈ l → f a = Some (g a)) → omap f l = g <$> l.
Proof.
  induction l as [|a l IH]; intros H; simpl; [reflexivity|].
  rewrite (H a) by constructor. simpl. f_equal. apply IH.
  intros b Hb. apply H. by constructor.
Qed.

Lemma omap_none {A B} (f : A → option B) (l : list A) :
  (∀ a, f a = None) → omap f l = [].
Proof.
  intros H. induction l as [|a l IH]; simpl; [reflexivity|]. by rewrite H.
Qed.

Lemma matchedSourceReq_total s0 srcs req :
  ∃ m, matchedSourceReq (s0 :: srcs) req = Some m.
Proof.
  unfold matchedSourceReq. destruct (find _ _) as [m|]; simpl; eauto.
Qed.

Lemma matchedSourceObj_total s0 srcs obj :
  ∃ m, matchedSourceObj (s0 :: srcs) obj = Some m.
Proof.
  unfold matchedSourceObj. destruct (find _ _) as [m|]; simpl; eauto.
Qed.

Lemma filter_kind k (l : list TraceabilityLink) :
  Forall (λ x, linkKind x = k) l → List.filter (hasKind k) l = l.
Proof.
  intros H. apply filter_all. eapply Forall_impl; [exact H|].
  intros x Hx. unfold hasKind. by apply bool_decide_eq_true.
Qed.

Lemma filter_other_kind k k' (l : list TraceabilityLink) :
  k ≠ k' → Forall (λ x, linkKind x = k') l → List.filter (hasKind k) l = [].
Proof.
  intros Hne H. apply filter_none. eapply Forall_impl; [exact H|].
  intros x Hx. unfold hasKind. apply bool_decide_eq_false. congruence.
Qed.

Lemma sourceLinks_segments srcs objs reqs ts :
  sourceLinks (buildLinks srcs objs reqs ts)
  = omap (reqLinkOf srcs) reqs ++ omap (objLinkOf srcs) objs.
Proof.
  unfold sourceLinks. rewrite buildLinks_segments, !List.filter_app.
  rewrite (filter_all _ (omap (reqLinkOf srcs) reqs)).
  2:{ apply omap_Forall. intros r l Hl. apply reqLinkOf_kind in Hl.
      apply bool_decide_eq_true. by injection Hl. }
  rewrite (filter_all _ (omap (objLinkOf srcs) objs)).
  2:{ apply omap_Forall. intros o l Hl. apply objLinkOf_kind in Hl.
      apply bool_decide_eq_true. by injection Hl. }
  rewrite (filter_none _ (omap (taskLinkOf reqs) ts)).
  2:{ apply omap_Forall. intros t l Hl. apply taskLinkOf_kind in Hl.
      apply bool_decide_eq_false. injection Hl as Hs _. congruence. }
  by rewrite app_nil_r.
Qed.

(** C10: when the raw source list is non-empty, every requirement and every
    objective is attributed (to the first source when it has no source field),
    the source→requirement links are one per requirement in requirement
    order, the source→objective links are one per objective in objective
    order, and the number of source links is the number of requirements plus
    the number of objectives. *)
Theorem one_source_link_per_item brd tasksData :
  arrayOrEmpty (raw_sources brd) ≠ [] →
  let t := fetchTraceability brd tasksData in
  ∃ (pickR : Requirement → Source) (pickO : Objective → Source),
    (∀ req, matchedSourceReq (sources t) req = Some (pickR req))
    ∧ (∀ obj, matchedSourceObj (sources t) obj = Some (pickO obj))
    ∧ (∀ req, req_source req = None → sources t !! 0%nat = Some (pickR req))
    ∧ (∀ obj, obj_source obj = None → sources t !! 0%nat = Some (pickO obj))
    ∧ List.filter (hasKind (N_source, N_requirement)) (links t)
      = (λ r, reqLink (pickR r) r) <$> requirements t
    ∧ List.filter (hasKind (N_source, N_objective)) (links t)
      = (λ o, objLink (pickO o) o) <$> objectives t
    ∧ length (sourceLinks (links t))
      = (length (requirements t) + length (objectives t))%nat.
Proof.
  intros Hne. simpl.
  destruct (buildSources (arrayOrEmpty (raw_sources brd))) as [|s0 srcs] eqn:Hs.
  { apply (f_equal length) in Hs. unfold buildSources in Hs.
    rewrite length_imap in Hs. simpl in Hs.
    by apply nil_length_inv in Hs. }
  set (pickR := λ r, default s0 (matchedSourceReq (s0 :: srcs) r)).
  set (pickO := λ o, default s0 (matchedSourceObj (s0 :: srcs) o)).
  assert (∀ r, matchedSourceReq (s0 :: srcs) r = Some (pickR r)) as HpR.
  { intros r. unfold pickR.
    by destruct (matchedSourceReq_total s0 srcs r) as [m ->]. }
  assert (∀ o, matchedSourceObj (s0 :: srcs) o = Some (pickO o)) as HpO.
  { intros o. unfold pickO.
    by destruct (matchedSourceObj_total s0 srcs o) as [m ->]. }
  assert (omap (reqLinkOf (s0 :: srcs)) (buildRequirements brd)
          = (λ r, reqLink (pickR r) r) <$> buildRequirements brd) as HR.
  { apply omap_total. intros r _. unfold reqLinkOf. by rewrite HpR. }
  assert (omap (objLinkOf (s0 :: srcs)) (buildObjectives brd)
          = (λ o, objLink (pickO o) o) <$> buildObjectives brd) as HO.
  { apply omap_total. intros o _. unfold objLinkOf. by rewrite HpO. }
  exists pickR, pickO.
  split; [exact HpR|]. split; [exact HpO|].
  split; [|split; [|split; [|split]]].
  - intros req Hreq. rewrite <- HpR. symmetry.
    apply matchedSourceReq_unmatched. rewrite Hreq.
    intros s _. by repeat split.
  - intros obj Hobj. rewrite <- HpO. symmetry.
    apply matchedSourceObj_unmatched. rewrite Hobj.
    intros s _. by repeat split.
  - rewrite buildLinks_segments, !List.filter_app.
    rewrite filter_kind by (apply omap_Forall, reqLinkOf_kind).
    rewrite (filter_other_kind _ (N_source, N_objective))
      by (done || apply omap_Forall, objLinkOf_kind).
    rewrite (filter_other_kind _ (N_requirement, N_task))
      by (done || apply omap_Forall, taskLinkOf_kind).
    by rewrite !app_nil_r, HR.
  - rewrite buildLinks_segments, !List.filter_app.
    rewrite (filter_other_kind _ (N_source, N_requirement))
      by (done || apply omap_Forall, reqLinkOf_kind).
    rewrite filter_kind by (apply omap_Forall, objLinkOf_kind).
    rewrite (filter_other_kind _ (N_requirement, N_task))
      by (done || apply omap_Forall, taskLinkOf_kind).
    by rewrite app_nil_r, HO.
  - rewrite sourceLinks_segments, HR, HO.
    by rewrite length_app, !length_fmap.
Qed.

Lemma one_source_link_per_item_witness :
  let t := fetchTraceability
             (mkBrd [rawOfType "slack"; rawOfType "email"]
                    [rawObj "BO-1" None]
                    [rawReq "FR-1" (Some "email")] [rawReq "NFR-1" None])
             None in
  length (sourceLinks (links t)) = 3%nat.
Proof.
  intros t.
  assert (arrayOrEmpty (raw_sources
            (mkBrd [rawOfType "slack"; rawOfType "email"] [rawObj "BO-1" None]
               [rawReq "FR-1" (Some "email")] [rawReq "NFR-1" None])) ≠ [])
    as Hne by discriminate.
  destruct (one_source_link_per_item _ None Hne)
    as (pickR & pickO & _ & _ & _ & _ & _ & _ & Hlen).
  exact Hlen.
Defined.

(** ** Coverage arithmetic *)

Lemma ratio_nonneg c n : (0 <= ratio c n)%Q.
Proof.
  unfold ratio. destruct (0 <? n)%nat; [|done].
  unfold Qle. simpl. lia.
Qed.

Lemma ratio_le_1 c n : (c ≤ n)%nat → (ratio c n <= 1)%Q.
Proof.
  intros Hle. unfold ratio. destruct (0 <? n)%nat eqn:Hn; [|done].
  apply Nat.ltb_lt in Hn. unfold Qle. simpl. lia.
Qed.

Lemma ratio_eq_0 c n : (ratio c n == 0)%Q ↔ c = 0%nat ∨ n = 0%nat.
Proof.
  unfold ratio. destruct (0 <? n)%nat eqn:Hn.
  - apply Nat.ltb_lt in Hn. unfold Qeq. simpl. lia.
  - apply Nat.ltb_ge in Hn. split; [intros _; right; lia|reflexivity].
Qed.

Lemma filter_fmap_comm {A B} (f : B → bool) (g : A → B) (l : list A) :
  List.filter f (g <$> l) = g <$> List.filter (λ a, f (g a)) l.
Proof.
  induction l as [|a l IH]; [reflexivity|].
  change (g <$> a :: l) with (g a :: (g <$> l)).
  change (List.filter f (g a :: (g <$> l)))
    with (if f (g a) then g a :: List.filter f (g <$> l)
          else List.filter f (g <$> l)).
  rewrite IH. simpl. by destruct (f (g a)).
Qed.

Lemma filter_nil_iff {A} (f : A → bool) (l : list A) :
  List.filter f l = [] ↔ ∀ x, x ∈ l → f x = false.
Proof.
  induction l as [|a l IH]; simpl.
  - split; [intros _ x Hx; by apply elem_of_nil in Hx|reflexivity].
  - destruct (f a) eqn:Ha.
    + split; [discriminate|]. intros H.
      rewrite (H a) in Ha by constructor. discriminate.
    + rewrite IH. split.
      * intros H x Hx. apply elem_of_cons in Hx as [->|Hx]; auto.
      * intros H x Hx. apply H. by constructor.
Qed.

Lemma size_list_to_set_dups `{Countable A} (l : list A) :
  size (list_to_set (C := gset A) l) = length (remove_dups l).
Proof.
  rewrite <- (size_list_to_set (C := gset A) (remove_dups l))
    by apply NoDup_remove_dups.
  f_equal. apply set_eq. intros x.
  by rewrite !elem_of_list_to_set, elem_of_remove_dups.
Qed.

Lemma remove_dups_length_le `{EqDecision A} (l : list A) :
  (length (remove_dups l) ≤ length l)%nat.
Proof.
  induction l as [|a l IH]; simpl; [lia|].
  destruct (decide_rel elem_of a l); simpl; lia.
Qed.

Lemma size_list_to_set_le `{Countable A} (l : list A) :
  (size (list_to_set (C := gset A) l) ≤ length l)%nat.
Proof. rewrite size_list_to_set_dups. apply remove_dups_length_le. Qed.

Lemma withSources_le reqs : (withSources reqs ≤ length reqs)%nat.
Proof. apply filter_length_le. Qed.

(** The numerator of the first ratio, read off the stored document. *)
Lemma withSources_raw brd :
  withSources (buildRequirements brd)
  = length (List.filter (λ r, truthy (rr_source_doc r))
              (arrayOrEmpty (functional_requirements brd)
               ++ arrayOrEmpty (non_functional_requirements brd))).
Proof.
  unfold withSources, buildRequirements.
  rewrite !List.filter_app, !filter_fmap_comm, !length_app, !length_fmap.
  reflexivity.
Qed.

Lemma buildRequirements_length brd :
  length (buildRequirements brd)
  = length (arrayOrEmpty (functional_requirements brd)
            ++ arrayOrEmpty (non_functional_requirements brd)).
Proof.
  unfold buildRequirements. by rewrite !length_app, !length_fmap.
Qed.

(** The numerator of the second ratio: the distinct non-empty requirement
    references carried by the tasks. *)
Lemma withTasks_distinct ts :
  withTasks ts
  = length (remove_dups (List.filter truthy (requirement_id <$> ts))).
Proof.
  unfold withTasks. rewrite size_list_to_set_dups.
  by rewrite filter_fmap_comm.
Qed.

(** ** Source coverage *)

(** C2, as stated, fails: with no raw source and two requirements that each
    carry a source field, no link is emitted, so no requirement has an inbound
    source link, yet the ratio is 1, not 0. *)
Lemma source_coverage_counterexample :
  let t := fetchTraceability brd_unlinked None in
  links t = []
  ∧ (spec_sourceCoverage t == 0)%Q
  ∧ (sourceCoverage t == 1)%Q
  ∧ ¬ (sourceCoverage t == 0)%Q.
Proof. vm_compute. repeat split; discriminate. Qed.

(** C2, amended: the source-coverage ratio is the number of requirements
    whose own source field is present and non-empty, divided by the number of
    requirements; it depends neither on the raw sources nor on the links. It is
    exactly 0 when there are no requirements, and otherwise 0 exactly when no
    requirement carries a source field. With an empty raw source list no
    source link is emitted. *)
Theorem source_coverage brd tasksData :
  let t := fetchTraceability brd tasksData in
  let stored := arrayOrEmpty (functional_requirements brd)
                ++ arrayOrEmpty (non_functional_requirements brd) in
  sourceCoverage t
    = ratio (length (List.filter (λ r, truthy (rr_source_doc r)) stored))
            (length stored)
  ∧ (stored = [] → sourceCoverage t = 0%Q)
  ∧ ((sourceCoverage t == 0)%Q
     ↔ ∀ r, r ∈ stored → truthy (rr_source_doc r) = false)
  ∧ (arrayOrEmpty (raw_sources brd) = [] → sourceLinks (links t) = []).
Proof.
  intros t stored.
  assert (sourceCoverage t
          = ratio (length (List.filter (λ r, truthy (rr_source_doc r)) stored))
                  (length stored)) as Heq.
  { unfold sourceCoverage, t. simpl.
    by rewrite withSources_raw, buildRequirements_length. }
  split; [exact Heq|]. split; [|split].
  - intros Hnil. rewrite Heq, Hnil. reflexivity.
  - rewrite Heq, ratio_eq_0, <- filter_nil_iff. split.
    + intros [H|H]; [by apply nil_length_inv|].
      apply nil_length_inv in H. by rewrite H.
    + intros ->. by left.
  - intros Hraw. unfold t. simpl. rewrite Hraw, sourceLinks_segments.
    by rewrite !omap_none.
Qed.

Lemma source_coverage_witness :
  let t := fetchTraceability
             (mkBrd [] [] [rawReq "FR-1" None; rawReq "FR-2" None] []) None in
  (sourceCoverage t == 0)%Q ∧ sourceLinks (links t) = [].
Proof.
  intros t.
  destruct (source_coverage
              (mkBrd [] [] [rawReq "FR-1" None; rawReq "FR-2" None] []) None)
    as (_ & _ & Hzero & Hlinks).
  split; [|apply Hlinks; reflexivity].
  apply Hzero. intros r Hr.
  list_members Hr; reflexivity.
Defined.

(** ** Task coverage *)

(** The set behind the numerator of the second ratio. *)
Lemma elem_of_task_refs (x : option string) ts :
  x ∈ list_to_set (C := gset (option string))
        (requirement_id <$> List.filter (λ t, truthy (requirement_id t)) ts)
  ↔ ∃ tk, tk ∈ ts ∧ truthy (requirement_id tk) = true ∧ requirement_id tk = x.
Proof.
  rewrite elem_of_list_to_set, list_elem_of_fmap. split.
  - intros (tk & -> & Htk). apply list_elem_of_In, filter_In in Htk as [Hin Htr].
    apply list_elem_of_In in Hin. eauto.
  - intros (tk & Hin & Htr & <-). exists tk. split; [reflexivity|].
    apply list_elem_of_In, filter_In. split; [|exact Htr].
    by apply list_elem_of_In.
Qed.

(** A reference not yet carried by another task raises the numerator by one,
    whatever the requirement list is. *)
Lemma withTasks_snoc ts o :
  truthy (requirement_id o) = true →
  requirement_id o ∉ requirement_id <$> ts →
  withTasks (ts ++ [o]) = S (withTasks ts).
Proof.
  intros Htr Hfresh. unfold withTasks.
  rewrite List.filter_app. simpl. rewrite Htr, fmap_app. simpl.
  rewrite list_to_set_app_L. simpl. rewrite (right_id_L ∅ (∪)).
  rewrite size_union, size_singleton; [lia|].
  apply disjoint_singleton_r. rewrite elem_of_task_refs.
  intros (tk & Hin & _ & Heq). apply Hfresh. rewrite <- Heq.
  by apply list_elem_of_fmap_2.
Qed.

Lemma withTasks_single tk :
  truthy (requirement_id tk) = true → withTasks [tk] = 1%nat.
Proof.
  intros Htr. change [tk] with ([] ++ [tk]).
  rewrite withTasks_snoc; [|exact Htr|apply not_elem_of_nil].
  vm_compute. reflexivity.
Qed.

Lemma withTasks_le reqs ts :
  refersToRequirements reqs ts → (withTasks ts ≤ length reqs)%nat.
Proof.
  intros Href. unfold withTasks.
  etrans; [|etrans; [apply (size_list_to_set_le ((λ r, Some (req_id r)) <$> reqs))|]].
  - apply subseteq_size. intros x. rewrite elem_of_task_refs.
    intros (tk & Hin & Htr & <-). destruct (Href tk Hin Htr) as (r & Hr & ->).
    apply elem_of_list_to_set. by apply (list_elem_of_fmap_2 (λ r, Some (req_id r))).
  - by rewrite length_fmap.
Qed.

(** ** Coverage bounds *)

(** C4: the code departs from the bound the claim states.  With one
    requirement and two tasks, one naming the requirement and one naming an
    objective (a reference the task generator hands out), the figure labelled
    "Requirements with Tasks" reads 2 / 1: the task-coverage ratio is 2, above
    1, because the count takes every reference carried by a task without
    looking it up among the requirements, as the link loop does. *)
Lemma task_coverage_exceeds_one :
  let t := fetchTraceability brd_single (Some tasks_mixed) in
  (taskCoverage t == 2)%Q ∧ ¬ (taskCoverage t <= 1)%Q.
Proof. vm_compute. split; [reflexivity|]. intros H. by apply H. Qed.

(** X12: the source-coverage ratio lies in [0,1] and the task-coverage ratio
    is at least 0, for every input; the task-coverage ratio is at most 1 when
    every requirement reference carried by a task names a requirement; both
    are exactly 0 when there are no requirements. *)
Theorem coverage_bounds brd tasksData :
  let t := fetchTraceability brd tasksData in
  ((0 <= sourceCoverage t)%Q ∧ (sourceCoverage t <= 1)%Q)
  ∧ (0 <= taskCoverage t)%Q
  ∧ (refersToRequirements (requirements t) (tasks t) →
     (taskCoverage t <= 1)%Q)
  ∧ (requirements t = [] →
     sourceCoverage t = 0%Q ∧ taskCoverage t = 0%Q).
Proof.
  intros t. split; [split|split; [|split]].
  - apply ratio_nonneg.
  - apply ratio_le_1, withSources_le.
  - apply ratio_nonneg.
  - intros Href. by apply ratio_le_1, withTasks_le.
  - intros Hnil. unfold sourceCoverage, taskCoverage. rewrite Hnil.
    split; reflexivity.
Qed.

Lemma coverage_bounds_witness :
  let t := fetchTraceability brd_single (Some [mkTask "t1" (Some "FR-1")]) in
  (taskCoverage t <= 1)%Q
  ∧ sourceCoverage (fetchTraceability (mkBrd [] [] [] []) None) = 0%Q.
Proof.
  intros t. split.
  - apply (coverage_bounds brd_single (Some [mkTask "t1" (Some "FR-1")])).
    intros tk Htk _. list_members Htk.
    exists (mkRequirement functional (rawReq "FR-1" None)).
    split; [by constructor|reflexivity].
  - by apply (coverage_bounds (mkBrd [] [] [] []) None).
Defined.

(** ** Task coverage against the link set *)

Lemma spec_linkedToTask_iff srcs objs reqs ts r :
  r ∈ reqs →
  spec_linkedToTask (buildLinks srcs objs reqs ts) r = true
  ↔ Some (req_id r)
      ∈ list_to_set (C := gset (option string))
          (requirement_id <$> List.filter (λ t, truthy (requirement_id t)) ts).
Proof.
  intros Hr. unfold spec_linkedToTask.
  rewrite existsb_exists, elem_of_task_refs. split.
  - intros (l & Hl & Hk). apply andb_true_iff in Hk as [Hk Hid].
    apply bool_decide_eq_true in Hk. apply String.eqb_eq in Hid.
    apply list_elem_of_In in Hl.
    rewrite buildLinks_segments, !elem_of_app, !list_elem_of_omap in Hl.
    destruct Hl as [(x & _ & Hx)|[(x & _ & Hx)|(tk & Htk & Hx)]].
    + apply reqLinkOf_kind in Hx. congruence.
    + apply objLinkOf_kind in Hx. congruence.
    + exists tk. split; [exact Htk|].
      split; [by apply taskLinkOf_truthy in Hx|].
      apply taskLinkOf_Some in Hx as (req & _ & Hreq & ->).
      simpl in Hid. congruence.
  - intros (tk & Htk & Htr & Hid).
    destruct (taskLinkOf_named reqs tk r Hr Htr Hid) as (req & Hreq & Hl).
    exists (taskLink req tk). split.
    + apply list_elem_of_In. rewrite buildLinks_segments, !elem_of_app.
      right. right. apply list_elem_of_omap. eauto.
    + apply andb_true_iff. split; [by apply bool_decide_eq_true|].
      simpl. by apply String.eqb_eq.
Qed.

(** Counting the elements of a duplicate-free list that fall in a set made of
    some of them gives the size of the set. *)
Lemma count_members `{Countable A} (l : list A) (X : gset A) :
  NoDup l → (∀ x, x ∈ X → x ∈ l) →
  length (List.filter (λ x, bool_decide (x ∈ X)) l) = size X.
Proof.
  intros Hnd Hsub.
  rewrite <- (size_list_to_set (C := gset A))
    by (apply NoDup_ListNoDup, List.NoDup_filter; by apply NoDup_ListNoDup).
  f_equal. apply set_eq. intros x.
  rewrite elem_of_list_to_set, list_elem_of_In, filter_In.
  rewrite bool_decide_eq_true, <- list_elem_of_In.
  split; [by intros [_ ?]|]. intros Hx. split; [by apply Hsub|exact Hx].
Qed.

Lemma withTasks_linked srcs objs reqs ts :
  NoDup (req_id <$> reqs) → refersToRequirements reqs ts →
  withTasks ts
  = length (List.filter (spec_linkedToTask (buildLinks srcs objs reqs ts)) reqs).
Proof.
  intros Hnd Href.
  set (X := list_to_set (C := gset (option string))
              (requirement_id <$> List.filter (λ t, truthy (requirement_id t)) ts)).
  rewrite (filter_ext_in _ (λ r, bool_decide (Some (req_id r) ∈ X))).
  2:{ intros r Hr. apply list_elem_of_In in Hr.
      apply eq_true_iff_eq. rewrite bool_decide_eq_true.
      by apply spec_linkedToTask_iff. }
  assert (length (List.filter (λ r, bool_decide (Some (req_id r) ∈ X)) reqs)
          = length (List.filter (λ x, bool_decide (x ∈ X))
                      ((λ r, Some (req_id r)) <$> reqs))) as ->
    by (by rewrite filter_fmap_comm, length_fmap).
  rewrite count_members; [reflexivity| |].
  - rewrite (list_fmap_compose req_id Some). by apply NoDup_fmap_2; [apply _|].
  - intros x. unfold X. rewrite elem_of_task_refs.
    intros (tk & Hin & Htr & <-). destruct (Href tk Hin Htr) as (r & Hr & ->).
    by apply (list_elem_of_fmap_2 (λ r, Some (req_id r))).
Qed.

(** C3: the code departs from the claim.  The only task names "FR-99", which
    is no requirement: the link loop emits nothing, so no requirement has an
    outbound task link and the ratio of the claim is 0, yet the figure labelled
    "Requirements with Tasks" reads 1 / 1, the task's reference being counted
    without being looked up among the requirements. *)
Lemma task_coverage_counts_orphan :
  let t := fetchTraceability brd_single (Some [mkTask "t9" (Some "FR-99")]) in
  links t = []
  ∧ (spec_taskCoverage t == 0)%Q
  ∧ (taskCoverage t == 1)%Q
  ∧ ¬ (taskCoverage t == spec_taskCoverage t)%Q.
Proof. vm_compute. repeat split; discriminate. Qed.

(** X13: what the "Requirements with Tasks" figure computes.  Its numerator
    is the number of distinct non-empty requirement references carried by the
    tasks and its denominator the number of requirements (the ratio is exactly
    0 without requirements); a task with a reference no other task carries
    raises the numerator by one.  With one requirement and one task that names
    its (non-empty) identifier the link is emitted and the ratio is 1.  When
    requirement identifiers are pairwise distinct and every reference names a
    requirement, the numerator is the number of requirements with an outbound
    task link in the built link set, the ratio the specification describes. *)
Theorem task_coverage brd tasksData :
  let t := fetchTraceability brd tasksData in
  taskCoverage t
    = ratio (length (remove_dups
                       (List.filter truthy (requirement_id <$> tasks t))))
            (length (requirements t))
  ∧ (requirements t = [] → taskCoverage t = 0%Q)
  ∧ (∀ ts o, truthy (requirement_id o) = true →
       requirement_id o ∉ requirement_id <$> ts →
       withTasks (ts ++ [o]) = S (withTasks ts))
  ∧ (∀ r tk, requirements t = [r] → tasks t = [tk] → req_id r ≠ "" →
       requirement_id tk = Some (req_id r) →
       (taskCoverage t == 1)%Q
       ∧ List.filter (hasKind (N_requirement, N_task)) (links t)
         = [taskLink r tk])
  ∧ (NoDup (req_id <$> requirements t) →
     refersToRequirements (requirements t) (tasks t) →
     taskCoverage t = spec_taskCoverage t).
Proof.
  intros t. split; [|split; [|split; [|split]]].
  - unfold taskCoverage. by rewrite withTasks_distinct.
  - intros Hnil. unfold taskCoverage. by rewrite Hnil.
  - apply withTasks_snoc.
  - intros r tk Hreqs Htasks Hne Hid.
    assert (truthy (requirement_id tk) = true) as Htr
      by (rewrite Hid; by apply truthy_Some).
    split.
    + unfold taskCoverage. rewrite Hreqs, Htasks.
      by rewrite withTasks_single.
    + unfold t in *. simpl in *.
      rewrite buildLinks_segments, !List.filter_app.
      rewrite (filter_other_kind _ (N_source, N_requirement))
        by (done || apply omap_Forall, reqLinkOf_kind).
      rewrite (filter_other_kind _ (N_source, N_objective))
        by (done || apply omap_Forall, objLinkOf_kind).
      rewrite filter_kind by (apply omap_Forall, taskLinkOf_kind).
      rewrite Hreqs, Htasks. simpl. unfold taskLinkOf. rewrite Htr. simpl.
      replace (strictEq (req_id r) (requirement_id tk)) with true;
        [reflexivity|].
      symmetry. by apply strictEq_true.
  - intros Hnd Href. unfold taskCoverage, spec_taskCoverage. f_equal.
    by apply withTasks_linked.
Qed.

(** Scenario D, and a second task that names an objective. *)
Lemma task_coverage_witness :
  let t := fetchTraceability brd_single (Some [mkTask "t1" (Some "FR-1")]) in
  (taskCoverage t == 1)%Q
  ∧ taskCoverage t = spec_taskCoverage t
  ∧ withTasks ([mkTask "t1" (Some "FR-1")] ++ [mkTask "t2" (Some "BO-1")])
    = S (withTasks [mkTask "t1" (Some "FR-1")])
  ∧ taskCoverage (fetchTraceability (mkBrd [] [] [] []) None) = 0%Q.
Proof.
  intros t.
  set (r := mkRequirement functional (rawReq "FR-1" None)).
  set (tk := mkTask "t1" (Some "FR-1")).
  assert (NoDup (req_id <$> requirements t)) as Hnd
    by apply NoDup_singleton.
  assert (refersToRequirements (requirements t) (tasks t)) as Href.
  { intros x Hx _. change (x ∈ [tk]) in Hx.
    list_members Hx. exists r. split; [by constructor|reflexivity]. }
  assert (requirement_id (mkTask "t2" (Some "BO-1")) ∉ requirement_id <$> [tk])
    as Hfresh.
  { intros Hin. change (Some "BO-1" ∈ [Some "FR-1"]) in Hin.
    list_members Hin. discriminate. }
  assert (req_id r ≠ "") as Hne by discriminate.
  split; [|split; [|split]].
  - exact (proj1 (proj1 (proj2 (proj2 (proj2
             (task_coverage brd_single (Some [tk])))))
             r tk eq_refl eq_refl Hne eq_refl)).
  - exact (proj2 (proj2 (proj2 (proj2
             (task_coverage brd_single (Some [tk])))))
             Hnd Href).
  - exact (proj1 (proj2 (proj2 (task_coverage brd_single (Some [tk]))))
             [tk] (mkTask "t2" (Some "BO-1")) eq_refl Hfresh).
  - exact (proj1 (proj2 (task_coverage (mkBrd [] [] [] []) None)) eq_refl).
Defined.

(** ** Strings: prefixes and digits *)

Lemma append_cons a s1 s2 : String a s1 +:+ s2 = String a (s1 +:+ s2).
Proof. reflexivity. Qed.

Lemma append_nil s : "" +:+ s = s.
Proof. reflexivity. Qed.

Lemma append_assoc s1 s2 s3 : (s1 +:+ s2) +:+ s3 = s1 +:+ (s2 +:+ s3).
Proof.
  induction s1 as [|a s1 IH]; [reflexivity|].
  by rewrite !append_cons, IH.
Qed.

Lemma stripPrefix_app p s : stripPrefix p (p +:+ s) = Some s.
Proof.
  induction p as [|a p IH]; [by destruct s|].
  rewrite append_cons. simpl. by rewrite Ascii.eqb_refl.
Qed.

Lemma stripPrefix_Some p s r : stripPrefix p s = Some r → s = p +:+ r.
Proof.
  revert s. induction p as [|a p IH]; intros s; simpl.
  - by intros [= ->].
  - destruct s as [|b s]; [done|].
    destruct (Ascii.eqb a b) eqn:Hab; [|done].
    apply Ascii.eqb_eq in Hab as ->. intros Hs.
    by rewrite append_cons, <- (IH s Hs).
Qed.

Lemma allDigits_app s1 s2 :
  allDigits (s1 +:+ s2) = allDigits s1 && allDigits s2.
Proof.
  induction s1 as [|a s1 IH]; [reflexivity|].
  rewrite append_cons. simpl. by rewrite IH, andb_assoc.
Qed.

(** A digit run followed by something that does not start with a digit is
    dropped whole. *)
Lemma dropDigits_app ds s :
  allDigits ds = true → dropDigits s = s → dropDigits (ds +:+ s) = s.
Proof.
  intros Hds Hs. induction ds as [|a ds IH]; [exact Hs|].
  simpl in Hds. apply andb_true_iff in Hds as [Ha Hds].
  rewrite append_cons. simpl. rewrite Ha. by apply IH.
Qed.

Lemma dropDigits_split s :
  ∃ ds, allDigits ds = true ∧ s = ds +:+ dropDigits s.
Proof.
  induction s as [|a s (ds & Hds & Hs)]; [by exists ""|].
  simpl. destruct (isDigit a) eqn:Ha.
  - exists (String a ds). split; [simpl; by rewrite Ha|].
    by rewrite append_cons, <- Hs.
  - by exists "".
Qed.

Lemma pretty_N_char_digit x : isDigit (pretty_N_char x) = true.
Proof. unfold pretty_N_char. by repeat case_match. Qed.

Lemma pretty_N_go_digits x s :
  ∃ ds, pretty_N_go x s = ds +:+ s ∧ allDigits ds = true
        ∧ ((0 < x)%N → ds ≠ "").
Proof.
  revert s. induction (N.lt_wf_0 x) as [x _ IH]. intros s.
  destruct (decide (0 < x)%N) as [Hx|Hx].
  - rewrite pretty_N_go_step by done.
    destruct (IH (x `div` 10)%N (N.div_lt x 10 Hx eq_refl)
                (String (pretty_N_char (x `mod` 10)) s))
      as (ds & -> & Hds & _).
    exists (ds +:+ String (pretty_N_char (x `mod` 10)) "").
    split; [by rewrite append_assoc|]. split.
    + rewrite allDigits_app, Hds. simpl.
      by rewrite pretty_N_char_digit.
    + intros _. by destruct ds.
  - assert (x = 0%N) as -> by lia. exists "". by rewrite pretty_N_go_0.
Qed.

(** Decimal printing of a natural number gives a non-empty string of digits. *)
Lemma pretty_nat_digits (n : nat) :
  allDigits (pretty n) = true ∧ pretty n ≠ "".
Proof.
  unfold pretty, pretty_nat, pretty, pretty_N.
  destruct (decide (N.of_nat n = 0%N)) as [_|Hn]; [done|].
  destruct (pretty_N_go_digits (N.of_nat n) "") as (ds & -> & Hds & Hne).
  assert (ds +:+ "" = ds) as ->.
  { clear. induction ds as [|a ds IH]; [done|]. by rewrite append_cons, IH. }
  split; [exact Hds|]. apply Hne. lia.
Qed.

(** ** The name shown on a row *)

Lemma displaySourceName_strips ds shown :
  ds ≠ "" → allDigits ds = true →
  displaySourceName ("SRC-" +:+ ds +:+ " — " +:+ shown) = shown.
Proof.
  intros Hne Hds. unfold displaySourceName. rewrite stripPrefix_app.
  destruct ds as [|c ds]; [done|]. rewrite append_cons.
  simpl in Hds. apply andb_true_iff in Hds as [Hc Hds]. rewrite Hc.
  rewrite (dropDigits_app ds (" — " +:+ shown) Hds) by reflexivity.
  by rewrite stripPrefix_app.
Qed.

(** X2: the row text is the link's source name without one leading
    "SRC-<digits> — " (at least one digit); a name that does not start that
    way is shown unchanged, and nothing else is ever removed. *)
Theorem displaySourceName_meaning (name : string) :
  (∀ ds shown, ds ≠ "" → allDigits ds = true →
     name = "SRC-" +:+ ds +:+ " — " +:+ shown →
     displaySourceName name = shown)
  ∧ (displaySourceName name = name
     ∨ ∃ ds, ds ≠ "" ∧ allDigits ds = true
             ∧ name = "SRC-" +:+ ds +:+ " — " +:+ displaySourceName name).
Proof.
  split.
  - intros ds shown Hne Hds ->. by apply displaySourceName_strips.
  - unfold displaySourceName.
    destruct (stripPrefix "SRC-" name) as [[|c rest]|] eqn:Hp; [by left| |by left].
    destruct (isDigit c) eqn:Hc; [|by left].
    destruct (stripPrefix " — " (dropDigits rest)) as [shown|] eqn:Hd; [|by left].
    right. destruct (dropDigits_split rest) as (ds & Hds & Hrest).
    exists (String c ds). split; [done|]. split; [simpl; by rewrite Hc|].
    apply stripPrefix_Some in Hp, Hd.
    by rewrite Hp, append_cons, Hrest, Hd at 1.
Qed.

Lemma displaySourceName_meaning_witness :
  displaySourceName "SRC-12 — Kickoff call" = "Kickoff call".
Proof.
  exact (proj1 (displaySourceName_meaning "SRC-12 — Kickoff call")
           "12" "Kickoff call" ltac:(discriminate) eq_refl eq_refl).
Defined.

Lemma displaySourceName_label m i :
  src_id m = buildSourceId i → displaySourceName (sourceLabel m) = src_name m.
Proof.
  intros Hid. unfold sourceLabel. rewrite Hid. unfold buildSourceId.
  rewrite append_assoc.
  destruct (pretty_nat_digits (i + 1)) as [Hds Hne].
  by apply displaySourceName_strips.
Qed.

Lemma buildSources_elem_of raws m :
  m ∈ buildSources raws → ∃ i r, raws !! i = Some r ∧ m = mkSource i r.
Proof.
  intros Hm. apply list_elem_of_lookup in Hm as [i Hi].
  apply list_lookup_imap_Some in Hi as (r & Hr & ->). eauto.
Qed.

(** X1: on every row that starts at a data source, the identifier on the
    badge is that of a source of the registry and the text beside it is
    exactly that source's display name: composing the label
    "<id> — <name>" and stripping it again loses nothing, whatever the name
    contains. *)
Theorem source_row_shows_display_name brd tasksData (l : TraceabilityLink) :
  let t := fetchTraceability brd tasksData in
  l ∈ links t → ls_type (link_source l) = N_source →
  ∃ m, m ∈ sources t
       ∧ ls_id (link_source l) = src_id m
       ∧ displaySourceName (ls_name (link_source l)) = src_name m.
Proof.
  simpl. rewrite buildLinks_segments, !elem_of_app, !list_elem_of_omap.
  intros [H|[H|H]] Hk.
  - destruct H as (r & _ & Hl). unfold reqLinkOf in Hl.
    destruct (matchedSourceReq _ r) as [m|] eqn:Hm; simpl in Hl; [|done].
    injection Hl as <-. apply matchedSourceReq_elem_of in Hm.
    exists m. split; [exact Hm|]. split; [reflexivity|].
    apply buildSources_elem_of in Hm as (i & raw & _ & ->).
    by apply (displaySourceName_label _ i).
  - destruct H as (o & _ & Hl). unfold objLinkOf in Hl.
    destruct (matchedSourceObj _ o) as [m|] eqn:Hm; simpl in Hl; [|done].
    injection Hl as <-. apply matchedSourceObj_elem_of in Hm.
    exists m. split; [exact Hm|]. split; [reflexivity|].
    apply buildSources_elem_of in Hm as (i & raw & _ & ->).
    by apply (displaySourceName_label _ i).
  - destruct H as (tk & _ & Hl). apply taskLinkOf_kind in Hl.
    injection Hl as Hl _. congruence.
Qed.

Lemma source_row_shows_display_name_witness :
  ∃ m, m ∈ sources (fetchTraceability brd_chain None)
       ∧ src_id m = "SRC-1"
       ∧ displaySourceName "SRC-1 — email" = src_name m.
Proof.
  assert (reqLink (mkSource 0 (RawObject (Some "slack") (Some "email") None None))
                  (mkRequirement functional (rawReq "FR-1" (Some "email")))
          ∈ links (fetchTraceability brd_chain None)) as Hin
    by (vm_compute; constructor).
  destruct (source_row_shows_display_name brd_chain None _ Hin eq_refl)
    as (m & Hm & Hid & Hname).
  exists m. split; [exact Hm|]. split; [by rewrite <- Hid|exact Hname].
Defined.

(** ** The citation summary *)

Lemma existsb_filter_length {A} (f : A → bool) (l : list A) :
  existsb f l = true ↔ (0 < length (List.filter f l))%nat.
Proof.
  induction l as [|a l IH]; simpl; [split; [done|lia]|].
  destruct (f a); simpl; [split; [lia|done]|exact IH].
Qed.

(** X3: the citation summary is rendered exactly when its count is at least
    one; the count is the number of stored requirements, functional and
    non-functional together, whose [citation_verified] is the boolean
    [false] (a missing, null or true flag does not count), so it is at most
    the number of requirements and does not depend on sources or tasks. *)
Theorem citation_summary brd tasksData :
  let t := fetchTraceability brd tasksData in
  let stored := arrayOrEmpty (functional_requirements brd)
                ++ arrayOrEmpty (non_functional_requirements brd) in
  (showsCitationSummary (requirements t) = true
   ↔ (1 ≤ unverifiedCount (requirements t))%nat)
  ∧ unverifiedCount (requirements t)
    = length (List.filter
                (λ r, bool_decide (rr_citation_verified r = Some false)) stored)
  ∧ (unverifiedCount (requirements t) ≤ length (requirements t))%nat.
Proof.
  intros t stored. split; [|split].
  - apply existsb_filter_length.
  - unfold unverifiedCount, t, stored. simpl. unfold buildRequirements.
    rewrite !List.filter_app, !filter_fmap_comm, !length_app, !length_fmap.
    f_equal; f_equal; apply filter_ext; intros r; unfold unverified; simpl;
      by destruct (rr_citation_verified r) as [[]|].
  - apply filter_length_le.
Qed.

(** ** The empty state and the number of rows *)

Lemma omap_nil_iff {A B} (f : A → option B) (l : list A) :
  omap f l = [] ↔ ∀ a, a ∈ l → f a = None.
Proof.
  induction l as [|a l IH]; simpl.
  - split; [intros _ x Hx; by apply elem_of_nil in Hx|done].
  - destruct (f a) eqn:Ha; simpl.
    + split; [done|]. intros H. rewrite (H a) in Ha by constructor. done.
    + rewrite IH. split.
      * intros H x Hx. apply elem_of_cons in Hx as [->|Hx]; auto.
      * intros H x Hx. apply H. by constructor.
Qed.

Lemma omap_length_filter {A B} (f : A → option B) (l : list A) :
  length (omap f l) = length (List.filter (λ a, bool_decide (is_Some (f a))) l).
Proof.
  induction l as [|a l IH]; [done|].
  cbn [List.filter].
  change (omap f (a :: l))
    with (match f a with Some y => y :: omap f l | None => omap f l end).
  destruct (f a) eqn:Ha.
  - rewrite bool_decide_eq_true_2 by eauto. simpl. by rewrite IH.
  - rewrite bool_decide_eq_false_2 by (by intros [??]). exact IH.
Qed.

Lemma taskLinkOf_is_Some reqs tk :
  is_Some (taskLinkOf reqs tk) ↔ namesRequirement reqs tk = true.
Proof.
  unfold taskLinkOf, namesRequirement.
  destruct (truthy (requirement_id tk)); simpl; [|by split; [intros [??]|]].
  rewrite fmap_is_Some. split.
  - intros [r Hr]. apply find_some in Hr as [Hin Heq].
    apply existsb_exists. eauto.
  - intros Hex. apply existsb_exists in Hex as (r & Hin & Heq).
    destruct (find _ reqs) eqn:Hf; [eauto|].
    by rewrite (find_none _ _ Hf r Hin) in Heq.
Qed.

Lemma taskLinkOf_None reqs tk :
  taskLinkOf reqs tk = None ↔ namesRequirement reqs tk = false.
Proof.
  rewrite <- not_true_iff_false, <- taskLinkOf_is_Some.
  rewrite eq_None_not_Some. reflexivity.
Qed.

Lemma reqLinkOf_nil r : reqLinkOf [] r = None.
Proof. reflexivity. Qed.

Lemma objLinkOf_nil o : objLinkOf [] o = None.
Proof. reflexivity. Qed.

Lemma reqLinkOf_cons s0 srcs r : is_Some (reqLinkOf (s0 :: srcs) r).
Proof.
  unfold reqLinkOf. apply fmap_is_Some.
  destruct (matchedSourceReq_total s0 srcs r) as [m ->]. eauto.
Qed.

Lemma objLinkOf_cons s0 srcs o : is_Some (objLinkOf (s0 :: srcs) o).
Proof.
  unfold objLinkOf. apply fmap_is_Some.
  destruct (matchedSourceObj_total s0 srcs o) as [m ->]. eauto.
Qed.

(** X4: the "No traceability links found" placeholder is shown exactly when
    (there is no data source, or there is neither a requirement nor an
    objective) and no task carries the identifier of a requirement.  Source
    citations play no part: with a source and a requirement the list is never
    empty, and without any source no citation produces a row. *)
Theorem empty_state brd tasksData :
  let t := fetchTraceability brd tasksData in
  showsEmptyState (links t) = true
  ↔ (sources t = [] ∨ (requirements t = [] ∧ objectives t = []))
    ∧ ∀ tk, tk ∈ tasks t → namesRequirement (requirements t) tk = false.
Proof.
  simpl. rewrite buildLinks_segments.
  set (srcs := buildSources _). set (reqs := buildRequirements _).
  set (objs := buildObjectives _). set (tks := arrayOrEmpty tasksData).
  assert (∀ ls : list TraceabilityLink, showsEmptyState ls = true ↔ ls = [])
    as -> by (intros [|??]; by split).
  rewrite !app_nil, !omap_nil_iff.
  assert ((∀ tk, tk ∈ tks → taskLinkOf reqs tk = None)
          ↔ (∀ tk, tk ∈ tks → namesRequirement reqs tk = false)) as ->.
  { split; intros H tk Htk; apply taskLinkOf_None; auto. }
  split.
  - intros (Hr & Ho & Ht). split; [|exact Ht].
    destruct srcs as [|s0 srcs]; [by left|right]. split.
    + destruct reqs as [|r reqs]; [done|].
      specialize (Hr r ltac:(constructor)).
      destruct (reqLinkOf_cons s0 srcs r) as [x Hx]. congruence.
    + destruct objs as [|o objs]; [done|].
      specialize (Ho o ltac:(constructor)).
      destruct (objLinkOf_cons s0 srcs o) as [x Hx]. congruence.
  - intros [[->|[-> ->]] Ht]; (split; [|split; [|exact Ht]]);
      intros a Ha; try (by apply elem_of_nil in Ha); reflexivity.
Qed.

(** X5: the number of rows is the number of requirements plus the number of
    objectives when there is at least one data source (none of them
    otherwise), plus the number of tasks that carry the identifier of a
    requirement; it never exceeds requirements + objectives + tasks. *)
Theorem row_count brd tasksData :
  let t := fetchTraceability brd tasksData in
  length (links t)
    = ((if bool_decide (sources t = []) then 0
        else length (requirements t) + length (objectives t))
       + length (List.filter (namesRequirement (requirements t)) (tasks t)))%nat
  ∧ (length (links t)
     ≤ length (requirements t) + length (objectives t) + length (tasks t))%nat.
Proof.
  intros t.
  assert (length (links t)
    = ((if bool_decide (sources t = []) then 0
        else length (requirements t) + length (objectives t))
       + length (List.filter (namesRequirement (requirements t)) (tasks t)))%nat)
    as Heq.
  { unfold t. simpl. rewrite buildLinks_segments, !length_app.
    rewrite (omap_length_filter (taskLinkOf _)).
    rewrite (filter_ext _ (namesRequirement (buildRequirements brd))).
    2:{ intros tk. apply eq_true_iff_eq.
        rewrite bool_decide_eq_true. apply taskLinkOf_is_Some. }
    destruct (buildSources _) as [|s0 srcs].
    - rewrite !omap_none by done. reflexivity.
    - rewrite bool_decide_eq_false_2 by done.
      rewrite (omap_total (reqLinkOf (s0 :: srcs))
                 (λ r, reqLink (default s0 (matchedSourceReq (s0 :: srcs) r)) r)).
      2:{ intros r _. unfold reqLinkOf.
          by destruct (matchedSourceReq_total s0 srcs r) as [m ->]. }
      rewrite (omap_total (objLinkOf (s0 :: srcs))
                 (λ o, objLink (default s0 (matchedSourceObj (s0 :: srcs) o)) o)).
      2:{ intros o _. unfold objLinkOf.
          by destruct (matchedSourceObj_total s0 srcs o) as [m ->]. }
      rewrite !length_fmap. lia. }
  split; [exact Heq|]. rewrite Heq.
  pose proof (filter_length_le (namesRequirement (requirements t)) (tasks t)).
  destruct (bool_decide _); lia.
Qed.

Lemma empty_state_witness :
  showsEmptyState (links (fetchTraceability brd_unlinked None)) = true.
Proof.
  apply (empty_state brd_unlinked None). split; [by left|].
  intros tk Htk. by apply elem_of_nil in Htk.
Defined.

(** ** Tasks and duplicate requirement identifiers *)

(** X6: a task that carries a non-empty requirement identifier gets exactly
    one row, from the first requirement of the list with that identifier;
    when a functional and a non-functional requirement share an identifier
    the functional one, listed first, is the one linked. *)
Theorem task_links_first_requirement reqs pre r post tk (x : string) :
  reqs = pre ++ r :: post →
  (∀ p, p ∈ pre → req_id p ≠ x) →
  req_id r = x → x ≠ "" → requirement_id tk = Some x →
  (∀ acc, linkTask reqs acc tk = acc ++ [taskLink r tk])
  ∧ (∀ brd, reqs = buildRequirements brd →
       r ∈ mkRequirement functional
             <$> arrayOrEmpty (functional_requirements brd)
       ∨ (∀ f, f ∈ arrayOrEmpty (functional_requirements brd) → rr_id f ≠ x)).
Proof.
  intros Hreqs Hpre Hr Hx Htk.
  assert (find (λ r', strictEq (req_id r') (requirement_id tk)) reqs = Some r)
    as Hfind.
  { rewrite Hreqs. apply find_first.
    - intros p Hp. apply strictEq_false. rewrite Htk. intros [= E].
      by apply (Hpre p Hp).
    - apply strictEq_true. by rewrite Htk, Hr. }
  split.
  - intros acc. unfold linkTask. rewrite Hfind.
    replace (truthy (requirement_id tk)) with true; [reflexivity|].
    symmetry. rewrite Htk. by apply truthy_Some.
  - intros brd Hb. unfold buildRequirements in Hb.
    destruct (arrayOrEmpty (functional_requirements brd)) as [|f0 fs0] eqn:Hfs;
      [right; intros f Hf; by apply elem_of_nil in Hf|].
    rewrite <- Hfs in *. clear Hfs f0 fs0.
    set (fs := arrayOrEmpty (functional_requirements brd)) in *.
    destruct (decide (Exists (λ f, rr_id f = x) fs)) as [Hex|Hno].
    + left. apply Exists_exists in Hex as (f & Hf & Hfx).
      apply list_elem_of_split in Hf as (f1 & f2 & Hsplit).
      rewrite Hsplit in *.
      assert (find (λ r', strictEq (req_id r') (requirement_id tk)) reqs
              = find (λ r', strictEq (req_id r') (requirement_id tk))
                  (mkRequirement functional <$> (f1 ++ f :: f2))) as Hsame.
      { rewrite Hb. clear -Hfx Htk.
        induction f1 as [|a f1 IH]; simpl.
        - replace (strictEq (rr_id f) (requirement_id tk)) with true;
            [reflexivity|].
          symmetry. apply strictEq_true. by rewrite Htk, Hfx.
        - by destruct (strictEq (rr_id a) (requirement_id tk)). }
      rewrite Hfind in Hsame. symmetry in Hsame.
      by apply find_elem_of in Hsame as [? _].
    + right. intros f Hf Hfx. apply Hno, Exists_exists. eauto.
Qed.

Lemma task_links_first_requirement_witness :
  let brd := mkBrd [] [] [rawReq "R-1" None] [rawReq "R-1" None] in
  let fr := mkRequirement functional (rawReq "R-1" None) in
  let tk := mkTask "t1" (Some "R-1") in
  linkTask (buildRequirements brd) [] tk = [taskLink fr tk]
  ∧ fr ∈ mkRequirement functional <$> [rawReq "R-1" None].
Proof.
  intros brd fr tk.
  assert (∀ p, p ∈ @nil Requirement → req_id p ≠ "R-1") as Hpre
    by (intros p Hp; by apply elem_of_nil in Hp).
  destruct (task_links_first_requirement (buildRequirements brd) [] fr
              [mkRequirement non_functional (rawReq "R-1" None)]
              tk "R-1" eq_refl Hpre eq_refl ltac:(discriminate) eq_refl)
    as [Hlink Hfun].
  split; [exact (Hlink [])|].
  destruct (Hfun brd eq_refl) as [Hin|Hno]; [exact Hin|].
  destruct (Hno (rawReq "R-1" None)); [by constructor|reflexivity].
Defined.

(** ** Registry entries are never blank *)

Lemma or_else_nonempty o d : d ≠ "" → or_else o d ≠ "".
Proof.
  intros Hd. destruct o as [s|]; simpl; [|exact Hd].
  destruct (String.eqb s "") eqn:Hs; [exact Hd|]. by apply String.eqb_neq.
Qed.

(** X7: the display name of the registry entry at index [i] is the raw
    entry's name when that is present and non-empty, otherwise its type when
    that is present and non-empty, otherwise "Source " followed by [i + 1],
    the number of its identifier.  Identifier, name and type of an entry are
    never empty, so an item whose source field is the empty string equals no
    field of any data source. *)
Theorem registry_names (raws : list RawSource) :
  (∀ i r, raws !! i = Some r →
     ∃ s, buildSources raws !! i = Some s
          ∧ (∀ n, raw_name r = Some n → n ≠ "" → src_name s = n)
          ∧ (truthy (raw_name r) = false →
             ∀ ty, raw_type r = Some ty → ty ≠ "" → src_name s = ty)
          ∧ (truthy (raw_name r) = false → truthy (raw_type r) = false →
             src_name s = "Source " +:+ pretty (i + 1)
             ∧ src_id s = "SRC-" +:+ pretty (i + 1)))
  ∧ (∀ s, s ∈ buildSources raws →
       src_id s ≠ "" ∧ src_name s ≠ "" ∧ src_type s ≠ "")
  ∧ unmatched (buildSources raws) (Some "").
Proof.
  assert (∀ s, s ∈ buildSources raws →
            src_id s ≠ "" ∧ src_name s ≠ "" ∧ src_type s ≠ "") as Hne.
  { intros s Hs. apply buildSources_elem_of in Hs as (i & r & _ & ->).
    split; [done|]. split; by apply or_else_nonempty. }
  split; [|split; [exact Hne|]].
  - intros i r Hr. exists (mkSource i r). split; [|split; [|split]].
    + unfold buildSources. by rewrite list_lookup_imap, Hr.
    + intros n Hn Hnn. simpl. unfold or_opt. rewrite Hn.
      replace (truthy (Some n)) with true
        by (symmetry; by apply truthy_Some).
      by apply or_else_present.
    + intros Hname ty Hty Htn. simpl. unfold or_opt. rewrite Hname, Hty.
      by apply or_else_present.
    + intros Hname Htype. split; [|reflexivity].
      simpl. unfold or_opt. rewrite Hname.
      destruct (raw_type r) as [ty|]; [|reflexivity].
      simpl in Htype. apply negb_false_iff in Htype. simpl. by rewrite Htype.
  - intros s Hs. destruct (Hne s Hs) as (Hi & Hn & Ht).
    repeat split; congruence.
Qed.

Lemma registry_names_witness :
  ∃ s, buildSources [RawString "pasted notes"; rawOfType "slack"] !! 1%nat
       = Some s
       ∧ src_name s = "slack" ∧ src_name s ≠ "".
Proof.
  destruct (registry_names [RawString "pasted notes"; rawOfType "slack"])
    as (Hname & Hne & _).
  destruct (Hname 1%nat (rawOfType "slack") eq_refl)
    as (s & Hs & _ & Hty & _).
  exists s. split; [exact Hs|]. split.
  - apply Hty; [reflexivity|reflexivity|discriminate].
  - apply Hne. by apply list_elem_of_lookup_2 in Hs.
Defined.

(** ** Quote badges *)

(** X8: a "quote" badge appears only on rows from a data source to a
    requirement.  With at least one data source the badged rows are, in
    order, the stored requirements (functional, then non-functional) whose
    [source_quote] is present and non-empty, each carrying that quote; with
    no data source no quote is ever shown, whatever the requirements hold. *)
Theorem quote_badges brd tasksData :
  let t := fetchTraceability brd tasksData in
  let stored := arrayOrEmpty (functional_requirements brd)
                ++ arrayOrEmpty (non_functional_requirements brd) in
  (∀ l, l ∈ links t → showsQuote l = true →
     linkKind l = (N_source, N_requirement))
  ∧ (sources t = [] → List.filter showsQuote (links t) = [])
  ∧ (sources t ≠ [] →
     (λ l, (lt_id (link_target l), excerpt (link_source l)))
       <$> List.filter showsQuote (links t)
     = (λ r, (rr_id r, rr_source_quote r))
         <$> List.filter (λ r, truthy (rr_source_quote r)) stored).
Proof.
  intros t stored.
  assert (List.filter showsQuote (links t)
          = List.filter showsQuote
              (omap (reqLinkOf (sources t)) (requirements t))) as Hseg.
  { unfold t. simpl. rewrite buildLinks_segments, !List.filter_app.
    rewrite (filter_none showsQuote (omap (objLinkOf _) _)).
    2:{ apply omap_Forall. intros o l Hl. unfold objLinkOf in Hl.
        destruct (matchedSourceObj _ o); simpl in Hl; [|done].
        by injection Hl as <-. }
    rewrite (filter_none showsQuote (omap (taskLinkOf _) _)).
    2:{ apply omap_Forall. intros tk l Hl.
        apply taskLinkOf_Some in Hl as (r & _ & _ & ->). reflexivity. }
    by rewrite !app_nil_r. }
  split; [|split].
  - intros l Hl Hq.
    assert (l ∈ List.filter showsQuote (links t)) as Hin
      by (apply list_elem_of_In, filter_In; split;
          [by apply list_elem_of_In|exact Hq]).
    rewrite Hseg in Hin. apply list_elem_of_In, filter_In in Hin as [Hin _].
    apply list_elem_of_In, list_elem_of_omap in Hin as (r & _ & Hr).
    by apply reqLinkOf_kind in Hr.
  - intros Hnil. rewrite Hseg, Hnil. by rewrite omap_none.
  - intros Hne. rewrite Hseg. unfold t in *. simpl in *.
    destruct (buildSources _) as [|s0 srcs]; [done|].
    rewrite (omap_total (reqLinkOf (s0 :: srcs))
               (λ r, reqLink (default s0 (matchedSourceReq (s0 :: srcs) r)) r)).
    2:{ intros r _. unfold reqLinkOf.
        by destruct (matchedSourceReq_total s0 srcs r) as [m ->]. }
    rewrite filter_fmap_comm, <- list_fmap_compose.
    unfold buildRequirements, stored.
    rewrite !List.filter_app, !fmap_app, !filter_fmap_comm.
    by rewrite <- !list_fmap_compose.
Qed.

Lemma quote_badges_witness :
  let brd := mkBrd [rawOfType "email"] []
               [{| rr_id := "FR-1"; rr_title := None; rr_description := None;
                   rr_source_doc := None;
                   rr_source_quote := Some "we need SSO";
                   rr_citation_verified := None |};
                rawReq "FR-2" None] [] in
  (λ l, (lt_id (link_target l), excerpt (link_source l)))
    <$> List.filter showsQuote (links (fetchTraceability brd None))
  = [("FR-1", Some "we need SSO")].
Proof.
  intros brd.
  exact (proj2 (proj2 (quote_badges brd None)) ltac:(discriminate)).
Defined.

(** ** Attribution when the registry grows *)

Lemma find_snoc {A} (f : A → bool) (l : list A) (x : A) :
  find f (l ++ [x]) = nullish (find f l) (if f x then Some x else None).
Proof.
  induction l as [|a l IH]; simpl; [by destruct (f x)|].
  by destruct (f a).
Qed.

(** X9: recording one more raw source at the end changes the attribution of
    a requirement only by moving it to the new source, and does not change it
    at all when the requirement already matched a source, or when the
    registry was non-empty and the new source does not match; in an empty
    registry the new source takes every requirement. *)
Theorem attribution_under_append (raws : list RawSource) (r : RawSource)
    (req : Requirement) :
  let old := buildSources raws in
  let new := buildSources (raws ++ [r]) in
  let added := mkSource (length raws) r in
  (matchedSourceReq new req = matchedSourceReq old req
   ∨ matchedSourceReq new req = Some added)
  ∧ (is_Some (find (reqMatches (req_source req)) old) →
     matchedSourceReq new req = matchedSourceReq old req)
  ∧ (raws ≠ [] → reqMatches (req_source req) added = false →
     matchedSourceReq new req = matchedSourceReq old req)
  ∧ (raws = [] → matchedSourceReq new req = Some added).
Proof.
  intros old new added. unfold new. rewrite buildSources_snoc.
  fold old. fold added. unfold matchedSourceReq. rewrite find_snoc.
  destruct (find (reqMatches (req_source req)) old) as [m|] eqn:Hf; simpl.
  - split; [by left|]. split; [done|]. split; [done|].
    intros ->. discriminate Hf.
  - destruct old as [|s0 rest] eqn:Hold; simpl.
    + split; [right; by destruct (reqMatches _ added)|].
      split; [by intros [??]|]. split.
      * intros Hne. apply (f_equal length) in Hold. unfold old in Hold.
        unfold buildSources in Hold. rewrite length_imap in Hold.
        by apply nil_length_inv in Hold.
      * intros _. by destruct (reqMatches _ added).
    + split; [destruct (reqMatches _ added); [by right|by left]|].
      split; [by intros [??]|]. split.
      * by intros _ ->.
      * intros ->. discriminate Hold.
Qed.

Lemma attribution_under_append_witness :
  let req := mkRequirement functional (rawReq "FR-1" (Some "email")) in
  matchedSourceReq (buildSources [rawOfType "email"; rawOfType "slack"]) req
  = matchedSourceReq (buildSources [rawOfType "email"]) req
  ∧ matchedSourceReq (buildSources ([] ++ [rawOfType "slack"])) req
    = Some (mkSource 0 (rawOfType "slack")).
Proof.
  intros req. split.
  - apply (attribution_under_append [rawOfType "email"] (rawOfType "slack") req);
      [discriminate|reflexivity].
  - by apply (attribution_under_append [] (rawOfType "slack") req).
Defined.

(** ** Tasks that share a reference *)

(** X10: the "Requirements with Tasks" count never exceeds the number of
    tasks, and a task that carries no reference, an empty one, or one that an
    earlier task already carries leaves the count as it was. *)
Theorem task_count_bound (ts : list Task) :
  (withTasks ts ≤ length ts)%nat
  ∧ ∀ o, truthy (requirement_id o) = false
         ∨ requirement_id o ∈ requirement_id <$> ts →
         withTasks (ts ++ [o]) = withTasks ts.
Proof.
  split.
  - unfold withTasks. etrans; [apply size_list_to_set_le|].
    rewrite length_fmap. apply filter_length_le.
  - intros o Ho. unfold withTasks. rewrite List.filter_app. simpl.
    destruct (truthy (requirement_id o)) eqn:Htr.
    + destruct Ho as [Ho|Ho]; [done|].
      rewrite fmap_app, list_to_set_app_L. simpl.
      rewrite (right_id_L ∅ (∪)). f_equal.
      rewrite (comm_L (∪)). apply subseteq_union_1_L. intros x Hx.
      apply elem_of_singleton in Hx as ->.
      apply elem_of_task_refs.
      apply list_elem_of_fmap in Ho as (tk & Heq & Htk).
      exists tk. split; [exact Htk|]. split; [by rewrite <- Heq|done].
    + by rewrite app_nil_r.
Qed.

Lemma task_count_bound_witness :
  withTasks ([mkTask "t1" (Some "FR-1")] ++ [mkTask "t2" (Some "FR-1")])
  = withTasks [mkTask "t1" (Some "FR-1")].
Proof.
  apply (task_count_bound [mkTask "t1" (Some "FR-1")]).
  right. simpl. by constructor.
Defined.

(** ** Objectives and source identifiers *)

(** X11: the objective loop compares an objective's source field with origin
    types and display names only.  An objective whose field equals neither on
    any data source is attributed to the first source of the registry (to none
    when the registry is empty), also when the field is the identifier of
    another source; a requirement with that field goes to the source so
    identified. *)
Theorem objective_ignores_identifier srcs pre s post (x : string) :
  srcs = pre ++ s :: post →
  (∀ p, p ∈ srcs → src_type p ≠ x ∧ src_name p ≠ x) →
  (∀ p, p ∈ pre → src_id p ≠ x) → src_id s = x →
  (∀ obj, obj_source obj = Some x → matchedSourceObj srcs obj = srcs !! 0%nat)
  ∧ (∀ req, req_source req = Some x → matchedSourceReq srcs req = Some s).
Proof.
  intros Hsrcs Hno Hpre Hid. split.
  - intros obj Hobj. unfold matchedSourceObj.
    replace (find _ srcs) with (@None Source); [reflexivity|].
    symmetry. apply find_none_iff. intros p Hp.
    destruct (Hno p Hp) as [Hty Hnm]. unfold objMatches.
    apply orb_false_iff. rewrite !strictEq_false, Hobj.
    split; congruence.
  - intros req Hreq. unfold matchedSourceReq. rewrite Hsrcs, Hreq.
    rewrite (find_first _ pre s post); [reflexivity| |].
    + intros p Hp. apply reqMatches_false.
      assert (p ∈ srcs) as Hin
        by (rewrite Hsrcs; apply elem_of_app; by left).
      destruct (Hno p Hin) as [Hty Hnm]. specialize (Hpre p Hp).
      repeat split; congruence.
    + unfold reqMatches. rewrite !orb_true_iff, !strictEq_true.
      left. right. by rewrite Hid.
Qed.

Lemma objective_ignores_identifier_witness :
  let srcs := buildSources [rawOfType "slack"; rawOfType "email"] in
  src_id <$> matchedSourceObj srcs (mkObjective (rawObj "BO-1" (Some "SRC-2")))
    = Some "SRC-1"
  ∧ src_id <$> matchedSourceReq srcs
                 (mkRequirement functional (rawReq "FR-1" (Some "SRC-2")))
    = Some "SRC-2".
Proof.
  intros srcs.
  assert (∀ p, p ∈ srcs → src_type p ≠ "SRC-2" ∧ src_name p ≠ "SRC-2") as Hno.
  { intros p Hp. subst srcs. vm_compute in Hp. list_members Hp; by split. }
  assert (∀ p, p ∈ [mkSource 0 (rawOfType "slack")] → src_id p ≠ "SRC-2")
    as Hpre.
  { intros p Hp. list_members Hp. discriminate. }
  destruct (objective_ignores_identifier srcs
              [mkSource 0 (rawOfType "slack")] (mkSource 1 (rawOfType "email"))
              [] "SRC-2" eq_refl Hno Hpre eq_refl) as [Hobj Hreq].
  split.
  - by rewrite (Hobj (mkObjective (rawObj "BO-1" (Some "SRC-2"))) eq_refl).
  - by rewrite (Hreq (mkRequirement functional (rawReq "FR-1" (Some "SRC-2")))
                  eq_refl).
Defined.
